(** * Planet Four catalog production: a shallow embedding

    The development follows [planet4/catalog_production.py],
    [planet4/reduction.py] and [planet4/markings.py].  Python values are
    modelled as follows:

    - [str] is [string]; iterating a [str] yields its characters ([ascii]);
    - a pandas [DataFrame] is the list of its rows, a row being a record;
    - a float column holds exact rationals ([Q]); a missing cell ([NaN]) is
      [None]; trigonometry lives in [R];
    - a generator is the list of the values it has yet to yield;
    - the file system is a finite map from paths to contents, or the finite
      set of the paths that exist, depending on what the function reads;
    - a call either returns or raises ([result]). *)

From Stdlib Require Import Ascii QArith Qround Qabs Lqa Reals Lra.
From stdpp Require Import gmap strings list fin_maps sorting.

Local Open Scope string_scope.
Local Open Scope list_scope.
Local Open Scope nat_scope.

(** ** Python calls *)

Module Py.

Inductive exn : Type :=
| StopIteration
| FileNotFoundError.

Inductive result (A : Type) : Type :=
| Returned (v : A)
| Raised (e : exn).

Arguments Returned {A} v.
Arguments Raised {A} e.

(** Sequencing: an exception raised by the first call propagates. *)
#[export] Instance result_ret : MRet result := λ A v, Returned v.

#[export] Instance result_bind : MBind result := λ A B k c,
  match c with
  | Returned v => k v
  | Raised e => Raised e
  end.

#[export] Instance result_fmap : FMap result := λ A B f c,
  match c with
  | Returned v => Returned (f v)
  | Raised e => Raised e
  end.

(** A generator object, seen as the values it will still yield.  [next]
    pops the first one; on an exhausted generator it raises
    [StopIteration]. *)
Definition generator (A : Type) : Type := list A.

Definition next {A} (g : generator A) : result (A * generator A) :=
  match g with
  | [] => Raised StopIteration
  | x :: g' => Returned (x, g')
  end.

(** [k] successive calls of [next], as in
    [for _ in range(k): out.append(next(g))]. *)
Fixpoint draw {A} (k : nat) (g : generator A)
    : result (list A * generator A) :=
  match k with
  | 0 => Returned ([], g)
  | S k' =>
      '(x, g1) ← next g;
      '(xs, g2) ← draw k' g1;
      Returned (x :: xs, g2)
  end.

(** [itertools.product(pool, repeat=n)], after the reference
    implementation: starting from [[[]]], each round extends every partial
    tuple by every element of the pool, the last position moving fastest. *)
Fixpoint product {A} (pool : list A) (repeat : nat) : list (list A) :=
  match repeat with
  | 0 => [[]]
  | S n => product pool n ≫= λ x, (λ y, x ++ [y]) <$> pool
  end.

End Py.

Import Py.

(** ** Marking identifiers ([fan_id_generator], [blotch_id_generator]) *)

Module IdentifierAllocator.

(** [string.digits] *)
Definition digits : string := "0123456789".

(** [string.digits + "abcdef"], iterated character by character. *)
Definition pool : list ascii :=
  String.list_ascii_of_string (digits +:+ "abcdef").

(** ["".join(newid)] *)
Definition join (newid : list ascii) : string :=
  String.string_of_list_ascii newid.

(** The two generator functions have the same body up to the prefix
    letter: [for newid in itertools.product(pool, repeat=6):
    yield prefix + "".join(newid)]. *)
Definition id_generator (prefix : ascii) : generator string :=
  (λ newid, String prefix (join newid)) <$> product pool 6.

Definition fan_id_generator : generator string := id_generator "F".

Definition blotch_id_generator : generator string := id_generator "B".

(** The identifier format: the prefix, then six characters of the pool. *)
Definition is_marking_id (prefix : ascii) (s : string) : bool :=
  match s with
  | EmptyString => false
  | String c body =>
      bool_decide (c = prefix)
      && (String.length body =? 6)
      && forallb (λ a, bool_decide (a ∈ pool))
           (String.list_ascii_of_string body)
  end.

(** The size of one kind's address space, [16^6]. *)
Definition address_space : N := 16777216.

End IdentifierAllocator.

(** ** Assigning identifiers to clustering results ([add_marking_ids]) *)

Module MarkingIds.

(** A [pathlib.Path] is the list of its components; [path / name] appends
    one, [path.parent] drops the last and [path.name] is the last (the
    empty string when there is none). *)
Abbreviation path := (list string) (only parsing).

Definition parent (p : path) : path := removelast p.

Definition name (p : path) : string := List.last p "".

(** A CSV file read by [pd.read_csv]: its rows in file order, every row
    mapping column names to cells. *)
Abbreviation row := (gmap string string) (only parsing).

Abbreviation frame := (list row) (only parsing).

Inductive kind : Type := Fans | Blotches.

#[export] Instance kind_eq_dec : EqDecision kind.
Proof. solve_decision. Defined.

Definition kind_name (k : kind) : string :=
  match k with Fans => "fans" | Blotches => "blotches" end.

(** What the function reads and mutates: the files on disk, the two
    generator objects handed in by the caller, and the files written so
    far, oldest first. *)
Record world : Type := World {
  files : gmap path frame;
  fan_id : generator string;
  blotch_id : generator string;
  written : list path
}.

Definition gen (k : kind) (w : world) : generator string :=
  match k with Fans => fan_id w | Blotches => blotch_id w end.

Definition set_gen (k : kind) (g : generator string) (w : world) : world :=
  match k with
  | Fans => World (files w) g (blotch_id w) (written w)
  | Blotches => World (files w) (fan_id w) g (written w)
  end.

(** Computations on the world that return or raise; the world reached up
    to a raise is kept. *)
Definition M (A : Type) : Type := world → result A * world.

#[export] Instance M_ret : MRet M := λ A v w, (Returned v, w).

#[export] Instance M_bind : MBind M := λ A B k c w,
  match c w with
  | (Returned v, w') => k v w'
  | (Raised e, w') => (Raised e, w')
  end.

(** [pd.read_csv(fname)] *)
Definition read_csv (fname : path) : M frame := λ w,
  match files w !! fname with
  | Some df => (Returned df, w)
  | None => (Raised FileNotFoundError, w)
  end.

(** [df.to_csv(fname, index=False)] *)
Definition to_csv (df : frame) (fname : path) : M unit := λ w,
  (Returned (),
   World (<[fname := df]> (files w)) (fan_id w) (blotch_id w)
     (written w ++ [fname])).

(** [next(id_)] on the generator object of the given kind. *)
Definition next_id (k : kind) : M string := λ w,
  match next (gen k w) with
  | Returned (x, g') => (Returned x, set_gen k g' w)
  | Raised e => (Raised e, w)
  end.

(** [for _ in range(n): marking_ids.append(next(id_))] *)
Fixpoint collect_ids (k : kind) (n : nat) (marking_ids : list string)
    : M (list string) :=
  match n with
  | 0 => mret marking_ids
  | S n' => x ← next_id k; collect_ids k n' (marking_ids ++ [x])
  end.

(** [df["marking_id"] = marking_ids] *)
Definition set_marking_ids (df : frame) (marking_ids : list string) : frame :=
  zip_with (λ r x, <["marking_id" := x]> r) df marking_ids.

(** [path / f"{image_id}_L1A_{kind}.csv"] with
    [image_id = path.parent.name] *)
Definition fname (p : path) (k : kind) : path :=
  p ++ [name (parent p) +:+ "_L1A_" +:+ kind_name k +:+ ".csv"].

(** One round of the loop over the two kinds. *)
Definition add_marking_ids_kind (p : path) (k : kind) : M unit := λ w,
  match read_csv (fname p k) w with
  | (Raised FileNotFoundError, w') => (Returned (), w')
  | (Raised e, w') => (Raised e, w')
  | (Returned df, w') =>
      (marking_ids ← collect_ids k (length df) [];
       to_csv (set_marking_ids df marking_ids) (fname p k)) w'
  end.

(** [for x in l: body(x)] *)
Fixpoint for_each {A} (l : list A) (body : A → M unit) : M unit :=
  match l with
  | [] => mret ()
  | x :: l' => _ ← body x; for_each l' body
  end.

(** [add_marking_ids(path, fan_id, blotch_id)]: the loop over
    [zip(["fans", "blotches"], [fan_id, blotch_id])]. *)
Definition add_marking_ids (p : path) : M unit :=
  for_each [Fans; Blotches] (add_marking_ids_kind p).

(** A directory holding a fans file of two rows and no blotches file. *)
Definition sample_dir : path := ["P4_catalog_v1"; "APF0000abc"; "L1A"].

Definition sample_world : world :=
  World
    {[ fname sample_dir Fans :=
         [ {[ "x" := "10.5"; "angle" := "30.0" ]};
           {[ "x" := "99.0"; "angle" := "271.5" ]} ] ]}
    ["F000000"; "F000001"; "F000002"] ["B000000"] [].

End MarkingIds.

(** ** Pending work units ([ReleaseManager.check_for_todo]) *)

Module WorkUnitTracker.

Section check_for_todo.

(** [pm.obsid_results_savefolder] for
    [pm = PathManager(obsid=obsid, datapath=self.savefolder)], a property
    of [planet4.io.PathManager], is a parameter; so is the set of paths
    that exist. *)
Context (obsid_results_savefolder : string → list string).
Context (fs : gset (list string)).

(** [path.exists()] *)
Definition exists_ (path : list string) : bool := bool_decide (path ∈ fs).

(** The test that makes the loop [continue]. *)
Definition done_ (overwrite : bool) (obsid : string) : bool :=
  exists_ (obsid_results_savefolder obsid ++ [obsid])
  && bool_decide (overwrite = false).

(** The loop over [self.obsids], [bucket] being the list built so far. *)
Fixpoint check_for_todo_loop (obsids : list string) (overwrite : bool)
    (bucket : list string) : list string :=
  match obsids with
  | [] => bucket
  | obsid :: rest =>
      if done_ overwrite obsid
      then check_for_todo_loop rest overwrite bucket
      else check_for_todo_loop rest overwrite (bucket ++ [obsid])
  end.

(** [check_for_todo(self, overwrite=None)]; the result is the value stored
    in [self.todo]. *)
Definition check_for_todo (self_overwrite : bool) (self_obsids : list string)
    (overwrite : option bool) : list string :=
  let overwrite :=
    match overwrite with None => self_overwrite | Some b => b end in
  check_for_todo_loop self_obsids overwrite [].

End check_for_todo.

(** Observations live directly under the catalog folder. *)
Definition sample_results_savefolder (obsid : string) : list string :=
  ["P4_catalog_v1"].

(** Only observation [A] has an output directory. *)
Definition sample_fs : gset (list string) := {[ ["P4_catalog_v1"; "A"] ]}.

(** Both [A] and [B] have one. *)
Definition sample_fs_rerun : gset (list string) :=
  {[ ["P4_catalog_v1"; "A"]; ["P4_catalog_v1"; "B"] ]}.

End WorkUnitTracker.

(** ** Published schemas and catalog source files ([ReleaseManager]) *)

Module ReleaseManager.

Definition FAN_COLUMNS_AS_PUBLISHED : list string :=
  [ "marking_id";
    "angle";
    "distance";
    "tile_id";
    "image_x";
    "image_y";
    "n_votes";
    "obsid";
    "spread";
    "version";
    "vote_ratio";
    "x";
    "y";
    "x_angle";
    "y_angle";
    "l_s";
    "map_scale";
    "north_azimuth";
    "BodyFixedCoordinateX";
    "BodyFixedCoordinateY";
    "BodyFixedCoordinateZ";
    "PlanetocentricLatitude";
    "PlanetographicLatitude";
    "Longitude" ].

Definition BLOTCH_COLUMNS_AS_PUBLISHED : list string :=
  [ "marking_id";
    "angle";
    "tile_id";
    "image_x";
    "image_y";
    "n_votes";
    "obsid";
    "radius_1";
    "radius_2";
    "vote_ratio";
    "x";
    "y";
    "x_angle";
    "y_angle";
    "l_s";
    "map_scale";
    "north_azimuth";
    "BodyFixedCoordinateX";
    "BodyFixedCoordinateY";
    "BodyFixedCoordinateZ";
    "PlanetocentricLatitude";
    "PlanetographicLatitude";
    "Longitude" ].

(** [name.endswith(suffix)] *)
Definition endswith (name suffix : string) : bool :=
  let n := String.length name in
  let m := String.length suffix in
  (m <=? n) && String.eqb (String.substring (n - m) m name) suffix.

(** [self.savefolder.glob("*" + suffix)]: the entries of the folder, in the
    order the directory is listed, whose name ends with the suffix. *)
Definition glob (savefolder : list string) (listing : list string)
    (suffix : string) : generator (list string) :=
  (λ name, savefolder ++ [name])
  <$> List.filter (λ name, endswith name suffix) listing.

(** [str(self.savefolder)] *)
Definition str (savefolder : list string) : string :=
  String.concat "/" savefolder.

(** The two properties share their body up to the pattern.  The value is a
    path or [None]; the second component is what was printed. *)
Definition catalog_file (suffix : string) (savefolder listing : list string)
    : result (option (list string)) * list string :=
  match next (glob savefolder listing suffix) with
  | Returned (found, _) => (Returned (Some found), [])
  | Raised StopIteration =>
      (Returned None, ["No file found. Looking at " +:+ str savefolder +:+ "."])
  | Raised e => (Raised e, [])
  end.

Definition fan_file : list string → list string →
    result (option (list string)) * list string :=
  catalog_file "_fan.csv".

Definition blotch_file : list string → list string →
    result (option (list string)) * list string :=
  catalog_file "_blotch.csv".

End ReleaseManager.

(** ** Angle normalisation ([planet4/reduction.py]) *)

Module Reduction.

(** One classification row: the kind of marking drawn, its angle in
    degrees (absent for kinds that have none) and the remaining cells. *)
Record classification : Type := Classification {
  marking : string;
  angle : option Q;
  cells : list string
}.

(** [x % m] on numbers: the remainder takes the sign of the divisor. *)
Definition pymod (x m : Q) : Q := (x - m * inject_Z (Qfloor (x / m)))%Q.

(** [df.loc[rowindex, 'angle'] = df.loc[rowindex, 'angle'] % m] with
    [rowindex = (df.marking == kind)] *)
Definition normalize_angles (kind : string) (m : Q)
    (df : list classification) : list classification :=
  (λ r,
     if bool_decide (marking r = kind)
     then Classification (marking r) ((λ a, pymod a m) <$> angle r) (cells r)
     else r) <$> df.

Definition convert_ellipse_angles (df : list classification)
    : list classification :=
  normalize_angles "blotch" 180 df.

Definition normalize_fan_angles (df : list classification)
    : list classification :=
  normalize_angles "fan" 360 df.

End Reduction.

(** ** Fan geometry ([planet4/markings.py]) *)

Module Markings.

Local Open Scope R_scope.

(** [math.radians] *)
Definition radians (x : R) : R := x * (PI / 180).

(** A vector of the plane, as the two-element array numpy holds. *)
Definition vector : Type := R * R.

(** [LA.norm(v)] *)
Definition norm (v : vector) : R := sqrt (fst v * fst v + snd v * snd v).

(** [rotate_vector(v, angle)]: the rotation matrix, then [rotmat.dot(v)]. *)
Definition rotate_vector (v : vector) (angle : R) : vector :=
  let rangle := radians angle in
  let rotmat := ((cos rangle, - sin rangle),
                 (sin rangle, cos rangle)) in
  (fst (fst rotmat) * fst v + snd (fst rotmat) * snd v,
   fst (snd rotmat) * fst v + snd (snd rotmat) * snd v).

(** The cells of a fan row that [P4_Fan] reads. *)
Record fan_row : Type := FanRow {
  x : R;
  y : R;
  angle : R;
  spread : R;
  distance : R
}.

(** [P4_Fan.get_arm_length] *)
Definition get_arm_length (data : fan_row) : R :=
  let half := radians (spread data / 2) in
  distance data / (cos half + sin half).

(** The attributes that [P4_Fan.__init__] sets. *)
Record P4_Fan : Type := Fan {
  base : vector;
  v1 : vector;
  v2 : vector;
  coords : list vector
}.

Definition vadd (a b : vector) : vector := (fst a + fst b, snd a + snd b).

(** [P4_Fan.__init__] *)
Definition P4_Fan_init (data : fan_row) : P4_Fan :=
  let base := (x data, y data) in
  let inside_half := spread data / 2 in
  let alpha := angle data - inside_half in
  let beta := alpha + spread data in
  let length := get_arm_length data in
  let v1 := rotate_vector (length, 0) alpha in
  let v2 := rotate_vector (length, 0) beta in
  Fan base v1 v2 [vadd base v1; base; vadd base v2].

End Markings.

(** ** Averaging repeated fnotch comparisons ([merge_fnotch_results]) *)

Module FnotchResolver.

(** A row of a candidate table.  [numbers] holds the cells of the numeric
    columns ([vote_ratio] among them) in the column order of the table, a
    missing cell being [None]; [texts] holds the cells of the text columns
    other than the three named ones. *)
Record candidate : Type := Candidate {
  marking_id : string;
  image_id : string;
  obsid : string;
  texts : list string;
  numbers : list (option Q)
}.

(** A row of a resulting table: the averaged numeric columns, then the two
    identity columns joined back on. *)
Record averaged : Type := Averaged {
  avg_marking_id : string;
  avg_numbers : list (option Q);
  avg_image_id : string;
  avg_obsid : string
}.

Definition sum (xs : list Q) : Q := foldr Qplus 0%Q xs.

(** [Series.mean()]: missing cells are skipped; with nothing left the mean
    is missing. *)
Definition mean (column : list (option Q)) : option Q :=
  match omap (λ cell, cell) column with
  | [] => None
  | present =>
      Some (sum present / inject_Z (Z.of_nat (length present)))%Q
  end.

(** The number of numeric columns of a table. *)
Definition width (df : list candidate) : nat :=
  match df with
  | [] => 0
  | r :: _ => length (numbers r)
  end.

(** The [j]-th numeric column of some rows. *)
Definition column (j : nat) (rows : list candidate) : list (option Q) :=
  (λ r, mjoin (numbers r !! j)) <$> rows.

(** The rows of one group of [df.groupby("marking_id")]. *)
Definition group (df : list candidate) (key : string) : list candidate :=
  filter (λ r, marking_id r = key) df.

(** [df.groupby("marking_id").mean()]: one row per key, the keys in sorted
    order, holding the mean of every numeric column over the group; the
    text columns are left out. *)
Definition groupby_mean (df : list candidate)
    : list (string * list (option Q)) :=
  (λ key, (key, (λ j, mean (column j (group df key))) <$> seq 0 (width df)))
  <$> merge_sort String.le (remove_dups (marking_id <$> df)).

(** [df.drop_duplicates(subset="marking_id")]: the first row of every
    [marking_id], [seen] being the ids met so far. *)
Fixpoint drop_duplicates (seen : list string) (df : list candidate)
    : list candidate :=
  match df with
  | [] => []
  | r :: rest =>
      if bool_decide (marking_id r ∈ seen) then drop_duplicates seen rest
      else r :: drop_duplicates (marking_id r :: seen) rest
  end.

(** [averaged.join(tmp[["image_id", "obsid"]], how="inner")] on the
    [marking_id] index, then [reset_index()]. *)
Definition join (averaged_ : list (string * list (option Q)))
    (tmp : list candidate) : list averaged :=
  averaged_ ≫= λ '(key, means),
    (λ t, Averaged key means (image_id t) (obsid t))
    <$> filter (λ t, marking_id t = key) tmp.

(** The body of the loop over the two tables. *)
Definition merge_fnotch_table (df : list candidate) : list averaged :=
  let averaged_ := groupby_mean df in
  let tmp := drop_duplicates [] df in
  join averaged_ tmp.

Definition merge_fnotch_results (fans blotches : list candidate)
    : list (list averaged) :=
  merge_fnotch_table <$> [fans; blotches].

(** One fan compared three times; the only numeric column is
    [vote_ratio]. *)
Definition sample_fans : list candidate :=
  [ Candidate "F00abcd" "APF0000x3t" "ESP_011296_0975" ["fan"] [Some 0.2%Q];
    Candidate "F00abcd" "APF0000x3t" "ESP_011296_0975" ["fan"] [Some 0.6%Q];
    Candidate "F00abcd" "APF0000x3t" "ESP_011296_0975" ["fan"] [Some 0.4%Q] ].

End FnotchResolver.

(** ** Joining ground coordinates ([merge_campt_results]) *)

Module GroundCoordinates.

(** [numpy.rint]: the nearest integer, ties going to the even one. *)
Definition rint (y : Q) : Z :=
  let below := Qfloor y in
  match (y - inject_Z below ?= 1 # 2)%Q with
  | Lt => below
  | Gt => (below + 1)%Z
  | Eq => if Z.even below then below else (below + 1)%Z
  end.

(** [numpy.round(x, decimals)]: scale, round to an integer, scale back. *)
Definition round (decimals : nat) (x : Q) : Q :=
  let scale := inject_Z (10 ^ Z.of_nat decimals) in
  (inject_Z (rint (x * scale)) / scale)%Q.

(** A row of the table [collect_marking_coordinates()] returns: the key
    columns, the six ground coordinates listed in [COLS_TO_MERGE] after the
    key, and the numeric columns that are not merged. *)
Record ground_row : Type := Ground {
  g_obsid : string;
  g_image_x : Q;
  g_image_y : Q;
  g_coordinates : list Q;
  g_unmerged : list Q
}.

(** A row of a candidate table: the key columns and the other cells. *)
Record candidate : Type := Candidate {
  obsid : string;
  image_x : Q;
  image_y : Q;
  cells : list string
}.

(** [DataFrame.round(decimals=7)]: every numeric column is rounded. *)
Definition round_frame (decimals : nat) (ground : list ground_row)
    : list ground_row :=
  (λ g,
     Ground (g_obsid g) (round decimals (g_image_x g))
       (round decimals (g_image_y g)) (round decimals <$> g_coordinates g)
       (round decimals <$> g_unmerged g)) <$> ground.

(** [ground[self.COLS_TO_MERGE]] *)
Definition COLS_TO_MERGE (ground : list ground_row)
    : list (string * Q * Q * list Q) :=
  (λ g, (g_obsid g, g_image_x g, g_image_y g, g_coordinates g)) <$> ground.

(** Equality of the key [INDEX = ["obsid", "image_x", "image_y"]]; numbers
    are compared by value. *)
Definition same_key (c : candidate) (g : string * Q * Q * list Q) : bool :=
  let '(g_obsid, g_x, g_y, _) := g in
  bool_decide (obsid c = g_obsid)
  && Qeq_bool (image_x c) g_x && Qeq_bool (image_y c) g_y.

(** [left.merge(right, on=INDEX)]: the inner join, one row for every pair
    of rows with the same key, in the order of the left table; the ground
    coordinates are appended to the candidate's columns. *)
Definition merge (left : list candidate)
    (right : list (string * Q * Q * list Q)) : list (candidate * list Q) :=
  left ≫= λ c, (λ g, (c, snd g)) <$> List.filter (same_key c) right.

(** [merge_campt_results(self, fans, blotches)], [collected] being the
    table that [self.collect_marking_coordinates()] returns. *)
Definition merge_campt_results (collected : list ground_row)
    (fans blotches : list candidate)
    : list (candidate * list Q) * list (candidate * list Q) :=
  let ground := round_frame 7 collected in
  let fans := merge fans (COLS_TO_MERGE ground) in
  let blotches := merge blotches (COLS_TO_MERGE ground) in
  (fans, blotches).

(** The stage as the specification words it, for comparison: the pixel
    coordinates of both sides are rounded before the join. *)
Definition round_candidates (decimals : nat) (df : list candidate)
    : list candidate :=
  (λ c,
     Candidate (obsid c) (round decimals (image_x c))
       (round decimals (image_y c)) (cells c)) <$> df.

Definition merge_both_sides_rounded (collected : list ground_row)
    (fans blotches : list candidate)
    : list (candidate * list Q) * list (candidate * list Q) :=
  let ground := round_frame 7 collected in
  (merge (round_candidates 7 fans) (COLS_TO_MERGE ground),
   merge (round_candidates 7 blotches) (COLS_TO_MERGE ground)).

(** One projected position, with more than seven decimals in [image_x]. *)
Definition sample_ground : list ground_row :=
  [ Ground "ESP_011296_0975" 100.12345678%Q 200.5%Q
      [1.5%Q; 2.5%Q; 3.5%Q; (-85.123456789)%Q; (-85.2)%Q; 101.25%Q] [0.25%Q] ].

(** A fan at the very same unrounded position. *)
Definition sample_unrounded_fans : list candidate :=
  [ Candidate "ESP_011296_0975" 100.12345678%Q 200.5%Q ["F000000"] ].

(** A fan whose position has seven decimals. *)
Definition sample_rounded_fans : list candidate :=
  [ Candidate "ESP_011296_0975" 100.1234568%Q 200.5%Q ["F000000"] ].

End GroundCoordinates.

(** ** Creating the marking ids of a run ([launch_catalog_production]) *)

Module Launch.

Import MarkingIds.

(** The number of rows of the files of one kind in some directories. *)
Definition total_rows (k : kind) (files : gmap path frame)
    (dirs : list path) : nat :=
  sum_list ((λ p, from_option length 0 (files !! fname p k)) <$> dirs).

Section create_marking_ids.

(** [get_L1A_paths(obsid, self.catalog)] lists the clustering-result
    directories of an observation through
    [PathManager.get_obsid_paths("L1A")]; it is a parameter. *)
Context (get_L1A_paths : string → list path).

(** The block under [# create marking_ids]: two fresh generators, then
    every directory of every observation still to do. *)
Definition create_marking_ids (todo : list string) : M unit := λ w,
  let fan_id := IdentifierAllocator.fan_id_generator in
  let blotch_id := IdentifierAllocator.blotch_id_generator in
  for_each todo
    (λ obsid, for_each (get_L1A_paths obsid) add_marking_ids)
    (World (files w) fan_id blotch_id (written w)).

End create_marking_ids.

(** Two observations with one tile directory each. *)
Definition sample_todo : list string := ["ESP_011296_0975"; "ESP_011341_0980"].

Definition sample_paths (obsid : string) : list path :=
  [ ["P4_catalog_v1"; obsid; "APF0000abc"; "L1A"] ].

Definition sample_world : world :=
  World
    {[ fname ["P4_catalog_v1"; "ESP_011296_0975"; "APF0000abc"; "L1A"] Fans :=
         [ {[ "x" := "10.5" ]}; {[ "x" := "99.0" ]} ];
       fname ["P4_catalog_v1"; "ESP_011341_0980"; "APF0000abc"; "L1A"] Fans :=
         [ {[ "x" := "3.25" ]} ] ]}
    [] [] [].

End Launch.

(** ** Tables with pairwise different keys *)

Module GroundKeys.

(** No two rows of a projected ground table have the same [obsid] and the
    same values of [image_x] and [image_y]. *)
Definition distinct_keys (right : list (string * Q * Q * list Q)) : Prop :=
  ∀ i j gi gj, right !! i = Some gi → right !! j = Some gj → i ≠ j →
    ¬ (gi.1.1.1 = gj.1.1.1 ∧ (gi.1.1.2 == gj.1.1.2)%Q
       ∧ (gi.1.2 == gj.1.2)%Q).

End GroundKeys.

(** ** The closing arc of a fan ([P4_Fan.add_semicircle]) *)

Module Semicircle.

Import Markings.

Local Open Scope R_scope.

(** [math.degrees] *)
Definition degrees (x : R) : R := x * (180 / PI).

Definition vsub (a b : vector) : vector := (fst a - fst b, snd a - snd b).

Definition vscale (c : R) (a : vector) : vector := (c * fst a, c * snd a).

(** The arguments of the [mpatches.Wedge] that is added to the axes. *)
Record wedge : Type := Wedge {
  center : vector;
  radius : R;
  theta1 : R;
  theta2 : R;
  width : R
}.

Section add_semicircle.

(** [numpy.arctan2] is a parameter. *)
Context (arctan2 : R → R → R).

(** [P4_Fan.add_semicircle], up to the colour. *)
Definition add_semicircle (self : P4_Fan) : wedge :=
  let circle_base := vsub (v1 self) (v2 self) in
  let center := vadd (vadd (base self) (v2 self)) (vscale 0.5 circle_base) in
  let radius := 0.5 * norm circle_base in
  let theta1 := degrees (arctan2 (snd circle_base) (fst circle_base)) in
  let theta2 := theta1 + 180 in
  Wedge center radius theta1 theta2 (0.01 * radius).

End add_semicircle.

End Semicircle.

(** ** Image ids and result paths ([planet4/io.py]) *)

Module IO.

(** [s[:-n]]: for a positive [n] the string without its last [n]
    characters; [-0] is [0], so [s[:-0]] is empty. *)
Definition slice_until_minus (s : string) (n : nat) : string :=
  match n with
  | 0 => ""
  | S _ => String.substring 0 (String.length s - n) s
  end.

(** [check_and_pad_id(imgid)] *)
Definition check_and_pad_id (imgid : string) : string :=
  let imgid_template := "APF0000000" in
  if String.length imgid <? String.length imgid_template
  then slice_until_minus imgid_template (String.length imgid) +:+ imgid
  else imgid.

(** [p / name] on paths given by their components, for a component
    without separator: an empty component changes nothing. *)
Definition joinpath (p : list string) (name : string) : list string :=
  if bool_decide (name = "") then p else p ++ [name].

(** [name.split('_')[0]]: what precedes the first underscore. *)
Fixpoint before_underscore (name : string) : string :=
  match name with
  | EmptyString => ""
  | String c rest =>
      if bool_decide (c = "_"%char) then ""
      else String c (before_underscore rest)
  end.

(** [get_image_id_from_fname(fname)] *)
Definition get_image_id_from_fname (fname : list string) : string :=
  let name := MarkingIds.name fname in
  before_underscore name.

(** The attributes of a [PathManager] that [get_path] reads. *)
Record PathManager : Type := {
  _id : string;
  datapath : list string;
  extra_path : string;
  obsid : string;
  suffix : string
}.

(** [PathManager.id_] *)
Definition id_ (self : PathManager) : string := check_and_pad_id (_id self).

(** [PathManager.path_so_far] *)
Definition path_so_far (self : PathManager) : list string :=
  let p := datapath self in
  let p := joinpath p (extra_path self) in
  let p := joinpath p (obsid self) in
  p.

(** [PathManager.get_path(marking, specific)] *)
Definition get_path (self : PathManager) (marking specific : string)
    : list string :=
  let p := path_so_far self in
  let p := joinpath p (id_ self) in
  let p := joinpath p specific in
  let p := joinpath p (id_ self +:+ "_" +:+ marking +:+ suffix self) in
  p.

(** What [get_latest_file] raises. *)
Inductive error : Type :=
| NoFilesFoundError
| DateError.

Section get_latest_file.

(** [P4DBName(fname).date], the date at the start of the file name, as the
    ordinal of its day; [None] when the name does not start with a date
    and the constructor raises.  It is a parameter. *)
Context (date : list string → option Z).

(** The loop over [fnames[1:]], holding [retval] and [dtnow]. *)
Fixpoint get_latest_file_loop (fnames : list (list string))
    (retval : list string) (dtnow : Z) : error + list string :=
  match fnames with
  | [] => inr retval
  | fname :: rest =>
      match date fname with
      | None => inl DateError
      | Some dt_to_check =>
          if (dtnow <? dt_to_check)%Z
          then get_latest_file_loop rest fname dt_to_check
          else get_latest_file_loop rest retval dtnow
      end
  end.

(** [get_latest_file(filenames)] *)
Definition get_latest_file (filenames : list (list string))
    : error + list string :=
  match filenames with
  | [] => inl NoFilesFoundError
  | first :: rest =>
      match date first with
      | None => inl DateError
      | Some dtnow => get_latest_file_loop rest first dtnow
      end
  end.

End get_latest_file.

End IO.

(** ** HiRISE pixel coordinates ([calculate_hirise_pixels]) *)

Module HirisePixels.

(** The cells of a row that the function reads, and the two it adds. *)
Record tile_row : Type := TileRow {
  x : option Q;
  y : option Q;
  x_tile : Z;
  y_tile : Z
}.

Record hirise_row : Type := HiriseRow {
  row : tile_row;
  hirise_x : option Q;
  hirise_y : option Q
}.

(** [Series.round()]: to the nearest integer, ties to the even one. *)
Definition round0 (v : Q) : Q := inject_Z (GroundCoordinates.rint v).

(** [calculate_hirise_pixels(df)] *)
Definition calculate_hirise_pixels (df : list tile_row) : list hirise_row :=
  (λ r,
     HiriseRow r
       ((λ x, round0 (x + 740 * inject_Z (x_tile r - 1))%Q) <$> x r)
       ((λ y, round0 (y + 548 * inject_Z (y_tile r - 1))%Q) <$> y r))
  <$> df.

(** The same position one tile further right and one tile further down. *)
Definition next_tile (r : tile_row) : tile_row :=
  TileRow (x r) (y r) (x_tile r + 1) (y_tile r + 1).

End HirisePixels.

(** ** Repeated classifications ([remove_duplicates_from_image_name_data]) *)

Module Duplicates.

(** A row of the classification database: the columns the function looks
    at, and the other cells.  [created_at] is a point in time. *)
Record classification : Type := Classification {
  classification_id : string;
  created_at : Z;
  image_id : string;
  user_name : string;
  cells : list string
}.

(** The grouping key, [['image_id', 'user_name']]. *)
Definition key (r : classification) : string * string :=
  (image_id r, user_name r).

(** The group keys of [groupby(..., sort=False)]: in the order in which
    they first occur, [seen] being the keys met so far. *)
Fixpoint first_seen (seen keys : list (string * string))
    : list (string * string) :=
  match keys with
  | [] => []
  | k :: rest =>
      if bool_decide (k ∈ seen) then first_seen seen rest
      else k :: first_seen (k :: seen) rest
  end.

(** [min] of two strings. *)
Definition min_string (a b : string) : string :=
  if bool_decide (String.le a b) then a else b.

(** [process_user_group(g)]; on an empty group both minima are missing and
    nothing is selected. *)
Definition process_user_group (g : list classification)
    : list classification :=
  match created_at <$> g with
  | [] => []
  | t :: ts =>
      let created_min := foldr Z.min t ts in
      let earliest := filter (λ r, created_at r = created_min) g in
      match classification_id <$> earliest with
      | [] => []
      | c :: cs =>
          let c_id := foldr min_string c cs in
          filter (λ r, classification_id r = c_id) g
      end
  end.

(** [remove_duplicates_from_image_name_data(data)] *)
Definition remove_duplicates_from_image_name_data
    (data : list classification) : list classification :=
  first_seen [] (key <$> data) ≫= λ k,
    process_user_group (filter (λ r, key r = k) data).

(** One user who was shown the same tile twice, and another user. *)
Definition sample_data : list classification :=
  [ Classification "c2" 200 "APF0000x3t" "anna" ["fan"];
    Classification "c1" 100 "APF0000x3t" "anna" ["fan"];
    Classification "c1" 100 "APF0000x3t" "anna" ["blotch"];
    Classification "c3" 150 "APF0000x3t" "ben" ["none"] ].

End Duplicates.

(** ** Removing incomplete and default markings ([filter_data]) *)

Module Cleaning.

(** A row of the raw classification table: the kind of marking, the
    numeric columns the filter reads (a missing cell is [None]) and the
    other cells. *)
Record raw_row : Type := RawRow {
  marking : string;
  x : option Q;
  y : option Q;
  image_x : option Q;
  image_y : option Q;
  radius_1 : option Q;
  radius_2 : option Q;
  distance : option Q;
  angle : option Q;
  spread : option Q;
  cells : list string
}.

(** ['x y image_x image_y radius_1 radius_2'.split()] *)
Definition blotch_data_cols : list (raw_row → option Q) :=
  [x; y; image_x; image_y; radius_1; radius_2].

(** ['x y image_x image_y distance angle spread'.split()] *)
Definition fan_data_cols : list (raw_row → option Q) :=
  [x; y; image_x; image_y; distance; angle; spread].

(** The rows [dropna(how='any', subset=cols)] keeps. *)
Definition notna (cols : list (raw_row → option Q)) (r : raw_row) : bool :=
  forallb (λ col, bool_decide (is_Some (col r))) cols.

(** [a < b] on cells: false as soon as the cell is missing. *)
Definition lt (a : option Q) (b : Q) : bool :=
  match a with
  | Some v => negb (Qle_bool b v)
  | None => false
  end.

(** [b < a] on cells. *)
Definition gt (a : option Q) (b : Q) : bool :=
  match a with
  | Some v => negb (Qle_bool v b)
  | None => false
  end.

(** [series.abs()] and [series - c] *)
Definition abs (a : option Q) : option Q := Qabs <$> a.

Definition minus (a : option Q) (c : Q) : option Q := (λ v, v - c)%Q <$> a.

(** [markings.img_x_size] and [markings.img_y_size] *)
Definition img_x_size : Q := 840%Q.

Definition img_y_size : Q := 648%Q.

(** [filter_data(df)] *)
Definition filter_data (df : list raw_row) : list raw_row :=
  let fans := List.filter (λ r, bool_decide (marking r = "fan")) df in
  let blotches := List.filter (λ r, bool_decide (marking r = "blotch")) df in
  let rest :=
    List.filter
      (λ r, bool_decide (marking r ≠ "fan")
            && bool_decide (marking r ≠ "blotch")) df in
  let fans := List.filter (notna fan_data_cols) fans in
  let blotches := List.filter (notna blotch_data_cols) blotches in
  let eps : Q := 0.00001%Q in
  let zero_filter r := lt (abs (x r)) eps && lt (abs (y r)) eps in
  let blotch_defaults r :=
    lt (minus (radius_1 r) 10%Q) eps
    && lt (abs (minus (radius_2 r) 10%Q)) eps in
  let fan_defaults r :=
    lt (abs (angle r)) eps && lt (abs (minus (distance r) 10%Q)) eps in
  let fans := List.filter (λ r, negb (zero_filter r && fan_defaults r)) fans in
  let blotches :=
    List.filter (λ r, negb (zero_filter r && blotch_defaults r)) blotches in
  let rest := List.filter (λ r, negb (zero_filter r)) rest in
  let df := fans ++ blotches ++ rest in
  let none := List.filter (λ r, bool_decide (marking r = "none")) df in
  let rest := List.filter (λ r, bool_decide (marking r ≠ "none")) df in
  let delta : Q := 25%Q in
  let q r :=
    gt (x r) (- delta)%Q && lt (x r) (img_x_size + delta)%Q
    && gt (y r) (- delta)%Q && lt (y r) (img_y_size + delta)%Q in
  let rest := List.filter q rest in
  rest ++ none.

(** The masks of [filter_data], row by row. *)
Definition eps : Q := 0.00001%Q.

Definition at_origin (r : raw_row) : bool :=
  lt (abs (x r)) eps && lt (abs (y r)) eps.

Definition blotch_defaults (r : raw_row) : bool :=
  lt (minus (radius_1 r) 10%Q) eps
  && lt (abs (minus (radius_2 r) 10%Q)) eps.

Definition fan_defaults (r : raw_row) : bool :=
  lt (abs (angle r)) eps && lt (abs (minus (distance r) 10%Q)) eps.

Definition in_frame (r : raw_row) : bool :=
  gt (x r) (- 25)%Q && lt (x r) (img_x_size + 25)%Q
  && gt (y r) (- 25)%Q && lt (y r) (img_y_size + 25)%Q.

(** The rows that pass, by kind of marking: fans, blotches, the kinds that
    are neither of them nor [none], and [none]. *)
Definition good_fan (r : raw_row) : bool :=
  bool_decide (marking r = "fan") && notna fan_data_cols r
  && negb (at_origin r && fan_defaults r) && in_frame r.

Definition good_blotch (r : raw_row) : bool :=
  bool_decide (marking r = "blotch") && notna blotch_data_cols r
  && negb (at_origin r && blotch_defaults r) && in_frame r.

Definition good_other (r : raw_row) : bool :=
  bool_decide (marking r ≠ "fan") && bool_decide (marking r ≠ "blotch")
  && bool_decide (marking r ≠ "none")
  && negb (at_origin r) && in_frame r.

Definition good_none (r : raw_row) : bool :=
  bool_decide (marking r = "none") && negb (at_origin r).

(** A complete fan, a fan left at the default position and shape, a
    blotch outside the tile, and a classification without marking. *)
Definition sample_rows : list raw_row :=
  [ RawRow "none" None None None None None None None None None ["c4"];
    RawRow "fan" (Some 100.5%Q) (Some 200%Q) (Some 840.5%Q) (Some 748%Q)
      None None (Some 55%Q) (Some 170.2%Q) (Some 20%Q) ["c1"];
    RawRow "fan" (Some 0%Q) (Some 0%Q) (Some 0%Q) (Some 0%Q)
      None None (Some 10%Q) (Some 0%Q) (Some 2%Q) ["c2"];
    RawRow "blotch" (Some 900%Q) (Some 200%Q) (Some 900%Q) (Some 200%Q)
      (Some 12%Q) (Some 7%Q) None None None ["c3"] ].

End Cleaning.

(** ** Numbers in hexadecimal *)

Module Hex.

(** The [k] digits of [n] in base 16, the most significant first. *)
Fixpoint to_digits (k n : nat) : list nat :=
  match k with
  | 0 => []
  | S k' => to_digits k' (n / 16) ++ [n mod 16]
  end.

(** The character of a digit, [0-9a-f]. *)
Definition digit_char (d : nat) : ascii :=
  nth d IdentifierAllocator.pool "0"%char.

(** [n] written with six lower-case hexadecimal digits. *)
Definition hex6 (n : nat) : string :=
  IdentifierAllocator.join (digit_char <$> to_digits 6 n).

End Hex.

(** ** Collecting the result files ([read_csvfiles_into_lists_of_frames]) *)

Module RoiFiles.

(** A folder is the list of its entries in the order the directory is
    listed, each with the table [pd.read_csv] reads from it. *)
Abbreviation folder := (list (string * MarkingIds.frame)) (only parsing).

(** [dict(fan=[], blotch=[])] and its later states. *)
Record bucket : Type := Bucket {
  fan : list MarkingIds.frame;
  blotch : list MarkingIds.frame
}.

(** The body of the inner loop: [bucket[key].append(pd.read_csv(file))]. *)
Definition add_file (b : bucket) (markingfile : string * MarkingIds.frame)
    : bucket :=
  let '(name, content) := markingfile in
  if ReleaseManager.endswith name "fans.csv"
  then Bucket (fan b ++ [content]) (blotch b)
  else Bucket (fan b) (blotch b ++ [content]).

(** [folder.glob("*.csv")] *)
Definition glob_csv (f : folder) : folder :=
  List.filter (λ e, ReleaseManager.endswith e.1 ".csv") f.

(** [read_csvfiles_into_lists_of_frames(folders)] *)
Definition read_csvfiles_into_lists_of_frames (folders : list folder)
    : bucket :=
  foldl (λ b f, foldl add_file b (glob_csv f)) (Bucket [] []) folders.

End RoiFiles.

(** * Properties *)

(** ** Generators *)

Section generators.
Context {A : Type}.
Implicit Types (g : generator A) (k : nat).

(** Drawing [k] values succeeds exactly when [k] values are left, and
    then hands out the first [k] in order. *)
Lemma draw_spec k g :
  draw k g =
    if decide (k ≤ length g) then Returned (take k g, drop k g)
    else Raised StopIteration.
Proof.
  revert g. induction k as [|k IH]; intros g.
  - rewrite decide_True by lia. by rewrite take_0, drop_0.
  - destruct g as [|x g].
    + rewrite decide_False by (simpl; lia). done.
    + change (draw (S k) (x :: g))
        with ('(xs, g2) ← draw k g; Returned (x :: xs, g2)).
      rewrite IH. unfold mbind, result_bind.
      destruct (decide (k ≤ length g)).
      * rewrite decide_True by (simpl; lia). done.
      * rewrite decide_False by (simpl; lia). done.
Qed.

Lemma length_product (pool : list A) n :
  length (product pool n) = length pool ^ n.
Proof.
  induction n as [|n IH]; [done|].
  change (product pool (S n))
    with (product pool n ≫= λ x, (λ y, x ++ [y]) <$> pool).
  rewrite Nat.pow_succ_r'. rewrite <- IH. clear IH.
  induction (product pool n) as [|t ts IHts]; [by rewrite Nat.mul_0_r|].
  rewrite bind_cons, length_app, length_fmap, IHts. simpl. lia.
Qed.

Lemma elem_of_product (pool : list A) n t :
  t ∈ product pool n → length t = n ∧ Forall (.∈ pool) t.
Proof.
  revert t. induction n as [|n IH]; intros t.
  - intros ->%list_elem_of_singleton. by split.
  - change (product pool (S n))
      with (product pool n ≫= λ x, (λ y, x ++ [y]) <$> pool).
    intros (x & (y & -> & Hy)%list_elem_of_fmap & Hx)%list_elem_of_bind.
    destruct (IH _ Hx) as [Hlen Hall]. split.
    + rewrite length_app. simpl. lia.
    + apply Forall_app. split; [done|]. by apply Forall_singleton.
Qed.

Lemma NoDup_product (pool : list A) n :
  NoDup pool → NoDup (product pool n).
Proof.
  intros Hpool. induction n as [|n IH]; [apply NoDup_singleton|].
  change (product pool (S n))
    with (product pool n ≫= λ x, (λ y, x ++ [y]) <$> pool).
  apply NoDup_bind; [| |done].
  - intros x1 x2 t _ _ (y1 & -> & _)%list_elem_of_fmap
      (y2 & Heq & _)%list_elem_of_fmap.
    by apply app_inj_tail in Heq as [? _].
  - intros x _. apply NoDup_fmap_2; [|done].
    intros y1 y2 Heq. by apply app_inj_tail in Heq as [_ ?].
Qed.
End generators.

(** ** Marking identifiers *)

Section identifiers.
Import IdentifierAllocator.

Lemma NoDup_pool : NoDup pool.
Proof. apply (bool_decide_unpack _). by vm_compute. Qed.

Lemma join_inj : Inj (=) (=) join.
Proof.
  intros t1 t2 Heq. unfold join in Heq.
  rewrite <- (String.list_ascii_of_string_of_list_ascii t1),
    <- (String.list_ascii_of_string_of_list_ascii t2).
  by rewrite Heq.
Qed.

Lemma length_join t : String.length (join t) = length t.
Proof. induction t as [|a t IH]; simpl; [done|by rewrite IH]. Qed.

Lemma length_id_generator prefix :
  N.of_nat (length (id_generator prefix)) = address_space.
Proof.
  unfold id_generator. rewrite length_fmap, length_product.
  rewrite Nat2N.inj_pow. reflexivity.
Qed.

Lemma NoDup_id_generator prefix : NoDup (id_generator prefix).
Proof.
  unfold id_generator. apply NoDup_fmap_2.
  - intros t1 t2 Heq. apply join_inj. congruence.
  - apply NoDup_product, NoDup_pool.
Qed.

Lemma id_generator_format prefix :
  Forall (λ s, is_marking_id prefix s = true) (id_generator prefix).
Proof.
  unfold id_generator. apply Forall_fmap, Forall_forall.
  intros t [Hlen Hall]%elem_of_product. simpl.
  rewrite bool_decide_eq_true_2 by done.
  rewrite length_join, Hlen. simpl.
  unfold join. rewrite String.list_ascii_of_string_of_list_ascii.
  apply forallb_forall. intros a Ha%list_elem_of_In.
  apply bool_decide_eq_true_2. rewrite Forall_forall in Hall. by apply Hall.
Qed.

(** What [k] draws from a fresh generator of the given kind yield. *)
Lemma draw_id_generator prefix k :
  match draw k (id_generator prefix) with
  | Returned (ids, _) =>
      NoDup ids
      ∧ Forall (λ s, is_marking_id prefix s = true) ids
      ∧ length ids = k
      ∧ (N.of_nat k ≤ address_space)%N
  | Raised e => e = StopIteration ∧ (address_space < N.of_nat k)%N
  end.
Proof.
  rewrite draw_spec. pose proof (length_id_generator prefix) as Hlen.
  destruct (decide (k ≤ length (id_generator prefix))) as [Hk|Hk].
  - split_and!.
    + eapply sublist_NoDup; [apply NoDup_id_generator|apply sublist_take].
    + apply Forall_take, id_generator_format.
    + by apply length_take_le.
    + lia.
  - split; [done|lia].
Qed.
End identifiers.

(** C1. Whatever the number [k] of draws from a fresh fan or blotch
    identifier generator: if the draws return, the identifiers drawn are
    pairwise distinct, each is the kind's prefix letter ([F] or [B])
    followed by exactly six characters of [0-9a-f], and [k] is at most
    [16^6]; otherwise some draw raised [StopIteration] and [k] exceeds
    [16^6].  So the generator never wraps around and never yields a longer
    identifier: once the address space is used up it raises. *)
Theorem marking_ids_unique_and_bounded (k : nat) :
  let allocated prefix r :=
    match r with
    | Returned (ids, _) =>
        NoDup ids
        ∧ Forall (λ s, IdentifierAllocator.is_marking_id prefix s = true) ids
        ∧ length ids = k
        ∧ (N.of_nat k ≤ IdentifierAllocator.address_space)%N
    | Raised e =>
        e = StopIteration
        ∧ (IdentifierAllocator.address_space < N.of_nat k)%N
    end in
  allocated "F"%char (draw k IdentifierAllocator.fan_id_generator)
  ∧ allocated "B"%char (draw k IdentifierAllocator.blotch_id_generator).
Proof.
  split.
  - apply (draw_id_generator "F").
  - apply (draw_id_generator "B").
Qed.

Example fan_ids_start :
  fst <$> draw 18 IdentifierAllocator.fan_id_generator
  = Returned
      [ "F000000"; "F000001"; "F000002"; "F000003"; "F000004"; "F000005";
        "F000006"; "F000007"; "F000008"; "F000009"; "F00000a"; "F00000b";
        "F00000c"; "F00000d"; "F00000e"; "F00000f"; "F000010"; "F000011" ].
Proof. reflexivity. Qed.

Example blotch_ids_start :
  fst <$> draw 2 IdentifierAllocator.blotch_id_generator
  = Returned ["B000000"; "B000001"].
Proof. reflexivity. Qed.

(** ** Assigning identifiers *)

Section marking_ids.
Import MarkingIds.
Implicit Types (w : world) (k : kind) (p : path).

Lemma set_gen_gen k w : set_gen k (gen k w) w = w.
Proof. by destruct k, w. Qed.

Lemma set_gen_set_gen k g1 g2 w :
  set_gen k g2 (set_gen k g1 w) = set_gen k g2 w.
Proof. by destruct k. Qed.

Lemma gen_set_gen k k' g w :
  gen k' (set_gen k g w) = if decide (k = k') then g else gen k' w.
Proof. by destruct k, k'. Qed.

Lemma collect_ids_spec k n acc w :
  n ≤ length (gen k w) →
  collect_ids k n acc w =
    (Returned (acc ++ take n (gen k w)),
     set_gen k (drop n (gen k w)) w).
Proof.
  revert acc w. induction n as [|n IH]; intros acc w Hn.
  - simpl. rewrite take_0, drop_0, app_nil_r, set_gen_gen. done.
  - destruct (gen k w) as [|x g'] eqn:Hg; [simpl in Hn; lia|].
    change (collect_ids k (S n) acc w)
      with ((x ← next_id k; collect_ids k n (acc ++ [x])) w).
    unfold mbind at 1, M_bind. unfold next_id. rewrite Hg. unfold next.
    cbv beta iota.
    rewrite IH; rewrite gen_set_gen, decide_True by done.
    + rewrite set_gen_set_gen, <- app_assoc. done.
    + simpl in Hn. lia.
Qed.

Lemma string_app_inv_head (s s1 s2 : string) :
  s +:+ s1 = s +:+ s2 → s1 = s2.
Proof. induction s as [|a s IH]; simpl; [done|]. intros [=]. auto. Qed.

Lemma fname_kind_inj p : Inj (=) (=) (fname p).
Proof.
  intros k1 k2 Heq. unfold fname in Heq.
  apply app_inv_head, (inj (λ x, [x])) in Heq.
  apply string_app_inv_head, string_app_inv_head in Heq.
  by destruct k1, k2.
Qed.

(** One round: an absent file changes nothing; a present one gets the
    next identifiers, one per row, and is written back. *)
Lemma add_marking_ids_kind_spec p k w :
  (∀ df, files w !! fname p k = Some df →
         length df ≤ length (gen k w)) →
  add_marking_ids_kind p k w =
    match files w !! fname p k with
    | None => (Returned (), w)
    | Some df =>
        let w1 := set_gen k (drop (length df) (gen k w)) w in
        (Returned (),
         World
           (<[fname p k := set_marking_ids df (take (length df) (gen k w))]>
              (files w))
           (fan_id w1) (blotch_id w1) (written w ++ [fname p k]))
    end.
Proof.
  intros Hlen. unfold add_marking_ids_kind, read_csv.
  destruct (files w !! fname p k) as [df|] eqn:Hdf; [|done].
  unfold mbind, M_bind. rewrite collect_ids_spec by auto.
  unfold to_csv. by destruct k.
Qed.
End marking_ids.

Section marking_ids_main.
Import MarkingIds.
Implicit Types (w : world) (k : kind) (p : path).

Lemma set_marking_ids_rows (df : frame) (ids : list string) :
  length df ≤ length ids →
  length (set_marking_ids df (take (length df) ids)) = length df
  ∧ ∀ i r, df !! i = Some r →
      ∃ x, ids !! i = Some x
        ∧ set_marking_ids df (take (length df) ids) !! i
          = Some (<["marking_id" := x]> r).
Proof.
  intros Hlen. unfold set_marking_ids. split.
  - rewrite length_zip_with, length_take. lia.
  - intros i r Hr. pose proof (lookup_lt_Some _ _ _ Hr) as Hi.
    destruct (lookup_lt_is_Some_2 ids i) as [x Hx]; [lia|].
    exists x. split; [done|].
    apply lookup_zip_with_Some. exists r, x. split_and!; [done..|].
    by rewrite lookup_take_lt.
Qed.

End marking_ids_main.

(** C10. [add_marking_ids] on a clustering-result directory [p], the
    generators holding at least as many identifiers as the files have rows:
    the call returns; the files written are, in this order, the fans file
    and then the blotches file, each only if present; a present file keeps
    its row count and its [i]-th row receives the [i]-th next identifier of
    its kind's generator, which thereby advances by exactly the file's row
    count; an absent file stays absent and its kind's generator is left
    untouched. *)
Theorem add_marking_ids_assigns_in_row_order
    (p : MarkingIds.path) (w : MarkingIds.world) :
  (∀ k df, MarkingIds.files w !! MarkingIds.fname p k = Some df →
           length df ≤ length (MarkingIds.gen k w)) →
  ∃ w',
    MarkingIds.add_marking_ids p w = (Returned (), w')
    ∧ MarkingIds.written w' =
        MarkingIds.written w
        ++ List.filter (λ f, bool_decide (is_Some (MarkingIds.files w !! f)))
             [MarkingIds.fname p MarkingIds.Fans;
              MarkingIds.fname p MarkingIds.Blotches]
    ∧ ∀ k,
        match MarkingIds.files w !! MarkingIds.fname p k with
        | None =>
            MarkingIds.files w' !! MarkingIds.fname p k = None
            ∧ MarkingIds.gen k w' = MarkingIds.gen k w
        | Some df =>
            MarkingIds.gen k w' = drop (length df) (MarkingIds.gen k w)
            ∧ ∃ df',
                MarkingIds.files w' !! MarkingIds.fname p k = Some df'
                ∧ length df' = length df
                ∧ ∀ i r, df !! i = Some r →
                    ∃ x, MarkingIds.gen k w !! i = Some x
                      ∧ df' !! i = Some (<["marking_id" := x]> r)
        end.
Proof.
  intros Hlen.
  assert (Hne : MarkingIds.fname p MarkingIds.Fans
                ≠ MarkingIds.fname p MarkingIds.Blotches)
    by (intros [=]%fname_kind_inj).
  unfold MarkingIds.add_marking_ids, MarkingIds.for_each.
  unfold mbind, MarkingIds.M_bind, mret, MarkingIds.M_ret.
  rewrite (add_marking_ids_kind_spec p MarkingIds.Fans w) by auto.
  pose proof (Hlen MarkingIds.Fans) as HF.
  pose proof (Hlen MarkingIds.Blotches) as HB.
  destruct (MarkingIds.files w !! MarkingIds.fname p MarkingIds.Fans)
    as [dfF|] eqn:HfF;
    cbv zeta; cbv beta iota;
    rewrite add_marking_ids_kind_spec;
    cbn [MarkingIds.files MarkingIds.gen MarkingIds.fan_id
         MarkingIds.blotch_id MarkingIds.written MarkingIds.set_gen];
    rewrite ?lookup_insert_ne by done;
    try (intros df Hdf; by apply HB);
    destruct (MarkingIds.files w !! MarkingIds.fname p MarkingIds.Blotches)
      as [dfB|] eqn:HfB;
    cbv zeta; cbv beta iota; eexists; (split; [reflexivity|]);
    cbn [MarkingIds.files MarkingIds.gen MarkingIds.fan_id
         MarkingIds.blotch_id MarkingIds.written MarkingIds.set_gen];
    (split;
     [cbn [List.filter]; rewrite ?HfF, ?HfB;
      rewrite ?bool_decide_eq_true_2 by eauto;
      rewrite ?bool_decide_eq_false_2 by (intros [? [=]]);
      by rewrite <- ?app_assoc, ?app_nil_r
     |]);
    intros [|];
    cbn [MarkingIds.files MarkingIds.gen MarkingIds.fan_id
         MarkingIds.blotch_id MarkingIds.written MarkingIds.set_gen];
    rewrite ?HfF, ?HfB;
    rewrite ?lookup_insert_eq, ?lookup_insert_ne by done;
    rewrite ?lookup_insert_eq;
    try (split; [done|]); try done;
    eexists; (split; [reflexivity|]);
    apply set_marking_ids_rows; auto.
Qed.

Lemma add_marking_ids_assigns_in_row_order_witness :
  ∃ w',
    MarkingIds.add_marking_ids MarkingIds.sample_dir MarkingIds.sample_world
      = (Returned (), w')
    ∧ MarkingIds.written w' =
        [MarkingIds.fname MarkingIds.sample_dir MarkingIds.Fans]
    ∧ MarkingIds.fan_id w' = ["F000002"]
    ∧ MarkingIds.blotch_id w' = ["B000000"].
Proof.
  destruct (add_marking_ids_assigns_in_row_order
              MarkingIds.sample_dir MarkingIds.sample_world)
    as (w' & Hrun & Hwritten & Hkinds).
  - intros [] df; vm_compute; [intros [= <-]; lia|intros [=]].
  - exists w'. split; [exact Hrun|]. split; [exact Hwritten|].
    split.
    + exact (proj1 (Hkinds MarkingIds.Fans)).
    + exact (proj2 (Hkinds MarkingIds.Blotches)).
Defined.

(** ** Pending work units *)

Section work_units.
Import WorkUnitTracker.
Context (folder : string → list string) (fs : gset (list string)).

Lemma check_for_todo_loop_filter obsids overwrite bucket :
  check_for_todo_loop folder fs obsids overwrite bucket =
    bucket ++ List.filter (λ o, negb (done_ folder fs overwrite o)) obsids.
Proof.
  revert bucket. induction obsids as [|o rest IH]; intros bucket.
  - by rewrite app_nil_r.
  - simpl. destruct (done_ folder fs overwrite o); rewrite IH; [done|].
    by rewrite <- app_assoc.
Qed.

Lemma check_for_todo_filter self_overwrite obsids overwrite :
  check_for_todo folder fs self_overwrite obsids overwrite =
    List.filter
      (λ o, negb (done_ folder fs (default self_overwrite overwrite) o))
      obsids.
Proof.
  unfold check_for_todo. rewrite check_for_todo_loop_filter.
  by destruct overwrite.
Qed.

Lemma filter_sublist {A} (f : A → bool) (l : list A) :
  List.filter f l `sublist_of` l.
Proof.
  induction l as [|x l IH]; simpl; [constructor|].
  destruct (f x); by constructor.
Qed.

Lemma StronglySorted_sublist {A} (R : relation A) (l1 l2 : list A) :
  l1 `sublist_of` l2 → StronglySorted R l2 → StronglySorted R l1.
Proof.
  induction 1 as [|x l1 l2 Hsub IH|x l1 l2 Hsub IH]; intros Hsorted.
  - done.
  - apply StronglySorted_inv in Hsorted as [Hl2 Hx]. constructor; [auto|].
    rewrite Forall_forall in Hx |- *. intros y Hy. apply Hx.
    by eapply elem_of_sublist.
  - apply StronglySorted_inv in Hsorted as [Hl2 _]. auto.
Qed.
End work_units.

(** C4. [check_for_todo] on any list of observation ids: with
    [overwrite=False] it returns no id whose output directory exists; with
    [overwrite=True] it returns every id; an id whose output directory is
    absent is returned whatever the flag (the function is total, absence
    raises nothing).  For the two observations [A] (output present) and [B]
    (output absent) and [overwrite=False] the result is [[B]]; once both
    outputs are present it is empty. *)
Theorem check_for_todo_skips_done_unless_overwrite
    (folder : string → list string) (fs : gset (list string))
    (self_overwrite : bool) (obsids : list string) :
  let todo := WorkUnitTracker.check_for_todo folder fs self_overwrite obsids in
  let has_output o := WorkUnitTracker.exists_ fs (folder o ++ [o]) = true in
  (∀ o, o ∈ todo (Some false) → o ∈ obsids ∧ ¬ has_output o)
  ∧ todo (Some true) = obsids
  ∧ (∀ overwrite o,
       o ∈ obsids → ¬ has_output o → o ∈ todo overwrite)
  ∧ (∀ A B, obsids = [A; B] → has_output A → ¬ has_output B →
       todo (Some false) = [B])
  ∧ (∀ A B, obsids = [A; B] → has_output A → has_output B →
       todo (Some false) = []).
Proof.
  intros todo has_output. subst todo has_output. cbv beta.
  split_and!.
  - intros o. rewrite check_for_todo_filter, list_elem_of_In, filter_In.
    rewrite <- list_elem_of_In. unfold WorkUnitTracker.done_. simpl.
    intros [Ho Hdone]. split; [done|].
    intros Hex. rewrite Hex in Hdone. done.
  - rewrite check_for_todo_filter. simpl.
    unfold WorkUnitTracker.done_. simpl.
    induction obsids as [|o rest IH]; [done|]. simpl.
    rewrite andb_false_r. simpl. by f_equal.
  - intros overwrite o Ho Habsent.
    rewrite check_for_todo_filter, list_elem_of_In, filter_In.
    rewrite <- list_elem_of_In. split; [done|].
    unfold WorkUnitTracker.done_.
    destruct (WorkUnitTracker.exists_ fs (folder o ++ [o])); [|done].
    by destruct Habsent.
  - intros A B -> HA HB. rewrite check_for_todo_filter. simpl.
    unfold WorkUnitTracker.done_. rewrite HA. simpl.
    destruct (WorkUnitTracker.exists_ fs (folder B ++ [B])); [|done].
    by destruct HB.
  - intros A B -> HA HB. rewrite check_for_todo_filter. simpl.
    unfold WorkUnitTracker.done_. by rewrite HA, HB.
Qed.

Lemma check_for_todo_skips_done_unless_overwrite_witness :
  WorkUnitTracker.check_for_todo WorkUnitTracker.sample_results_savefolder
    WorkUnitTracker.sample_fs false ["A"; "B"] (Some false) = ["B"]
  ∧ WorkUnitTracker.check_for_todo WorkUnitTracker.sample_results_savefolder
      WorkUnitTracker.sample_fs_rerun false ["A"; "B"] (Some false) = [].
Proof.
  split.
  - destruct (check_for_todo_skips_done_unless_overwrite
                WorkUnitTracker.sample_results_savefolder
                WorkUnitTracker.sample_fs false ["A"; "B"])
      as (_ & _ & _ & Hfirst & _).
    apply (Hfirst "A" "B"); [reflexivity|by vm_compute|by vm_compute].
  - destruct (check_for_todo_skips_done_unless_overwrite
                WorkUnitTracker.sample_results_savefolder
                WorkUnitTracker.sample_fs_rerun false ["A"; "B"])
      as (_ & _ & _ & _ & Hrerun).
    apply (Hrerun "A" "B"); [reflexivity|by vm_compute|by vm_compute].
Defined.

(** C5, as the code has it.  The result of [check_for_todo] is the input
    list with the skipped observations removed, in the order of the input:
    a function of its inputs, sorted whenever the input list is. *)
Theorem check_for_todo_keeps_input_order
    (folder : string → list string) (fs : gset (list string))
    (self_overwrite : bool) (obsids : list string) (overwrite : option bool) :
  let todo :=
    WorkUnitTracker.check_for_todo folder fs self_overwrite obsids overwrite in
  todo `sublist_of` obsids
  ∧ (StronglySorted String.le obsids → StronglySorted String.le todo).
Proof.
  cbv zeta. rewrite check_for_todo_filter.
  split; [apply filter_sublist|].
  apply StronglySorted_sublist, filter_sublist.
Qed.

Lemma check_for_todo_keeps_input_order_witness :
  StronglySorted String.le
    (WorkUnitTracker.check_for_todo WorkUnitTracker.sample_results_savefolder
       WorkUnitTracker.sample_fs false ["A"; "B"; "C"] None).
Proof.
  apply (check_for_todo_keeps_input_order
           WorkUnitTracker.sample_results_savefolder
           WorkUnitTracker.sample_fs false ["A"; "B"; "C"] None).
  repeat constructor.
Defined.

(** C5 as stated fails: with no output present, the ids [B], [A] come back
    in that order, which is not sorted. *)
Lemma check_for_todo_not_sorted :
  ¬ StronglySorted String.le
      (WorkUnitTracker.check_for_todo WorkUnitTracker.sample_results_savefolder
         ∅ false ["B"; "A"] None).
Proof.
  intros Hsorted. vm_compute in Hsorted.
  apply StronglySorted_inv in Hsorted as [_ Hle].
  apply Forall_inv in Hle. exact Hle.
Qed.

(** ** Published schemas *)

(** C6 as stated fails: [version] is a published fan column other than
    [distance] and [spread], and the blotch schema does not have it. *)
Lemma blotch_schema_lacks_version :
  ¬ ∀ c, c ∈ ReleaseManager.FAN_COLUMNS_AS_PUBLISHED →
         c ≠ "distance" → c ≠ "spread" →
         c ∈ ReleaseManager.BLOTCH_COLUMNS_AS_PUBLISHED.
Proof.
  intros Hall. specialize (Hall "version").
  assert (Hin : "version" ∈ ReleaseManager.FAN_COLUMNS_AS_PUBLISHED)
    by (apply (bool_decide_unpack _); by vm_compute).
  specialize (Hall Hin ltac:(discriminate) ltac:(discriminate)).
  revert Hall. apply (bool_decide_unpack _). by vm_compute.
Qed.

(** C6, as the code has it.  Leaving [radius_1], [radius_2] out of the
    blotch list and [distance], [spread], [version] out of the fan list
    gives the same list of columns, in the same order; [radius_1] and
    [radius_2] are blotch columns and not fan columns; [distance],
    [spread] and [version] are fan columns and not blotch columns. *)
Theorem blotch_schema_from_fan_schema :
  let fan_only := ["distance"; "spread"; "version"] in
  let blotch_only := ["radius_1"; "radius_2"] in
  filter (.∉ blotch_only) ReleaseManager.BLOTCH_COLUMNS_AS_PUBLISHED
    = filter (.∉ fan_only) ReleaseManager.FAN_COLUMNS_AS_PUBLISHED
  ∧ Forall (.∈ ReleaseManager.BLOTCH_COLUMNS_AS_PUBLISHED) blotch_only
  ∧ Forall (.∉ ReleaseManager.FAN_COLUMNS_AS_PUBLISHED) blotch_only
  ∧ Forall (.∈ ReleaseManager.FAN_COLUMNS_AS_PUBLISHED) fan_only
  ∧ Forall (.∉ ReleaseManager.BLOTCH_COLUMNS_AS_PUBLISHED) fan_only.
Proof.
  cbv zeta. split_and!.
  - by vm_compute.
  - apply (bool_decide_unpack _). by vm_compute.
  - apply (bool_decide_unpack _). by vm_compute.
  - apply (bool_decide_unpack _). by vm_compute.
  - apply (bool_decide_unpack _). by vm_compute.
Qed.

(** ** Catalog source files *)

Section catalog_files.
Import ReleaseManager.

Lemma catalog_file_missing suffix savefolder listing :
  Forall (λ name, endswith name suffix = false) listing →
  catalog_file suffix savefolder listing =
    (Returned None, ["No file found. Looking at " +:+ str savefolder +:+ "."]).
Proof.
  intros Hnone. unfold catalog_file, glob.
  replace (List.filter (λ name, endswith name suffix) listing)
    with (@nil string); [done|].
  induction Hnone as [|name listing Hname _ IH]; [done|].
  simpl. by rewrite Hname.
Qed.
End catalog_files.

(** C7 as stated fails: on a catalog folder without any file, both lookups
    return [None]; nothing is raised. *)
Lemma missing_catalog_file_returns_None :
  fst (ReleaseManager.fan_file ["data"; "P4_catalog_v1"] []) = Returned None
  ∧ fst (ReleaseManager.blotch_file ["data"; "P4_catalog_v1"] [])
    = Returned None.
Proof. split; reflexivity. Qed.

(** C7, as the code has it.  When no entry of the catalog folder ends with
    the kind's suffix ([_fan.csv], [_blotch.csv]), the lookup prints
    [No file found. Looking at <folder>.] and returns [None]; it does not
    raise. *)
Theorem catalog_file_missing_prints_and_returns_None
    (savefolder listing : list string) :
  let message := "No file found. Looking at "
                 +:+ ReleaseManager.str savefolder +:+ "." in
  (Forall (λ name, ReleaseManager.endswith name "_fan.csv" = false) listing →
   ReleaseManager.fan_file savefolder listing = (Returned None, [message]))
  ∧ (Forall (λ name, ReleaseManager.endswith name "_blotch.csv" = false)
       listing →
     ReleaseManager.blotch_file savefolder listing
       = (Returned None, [message])).
Proof. split; apply catalog_file_missing. Qed.

Lemma catalog_file_missing_prints_and_returns_None_witness :
  ReleaseManager.fan_file ["data"; "P4_catalog_v1"]
    ["P4_catalog_v1_metadata.csv"; "P4_catalog_v1_L1C_blotch.csv"]
  = (Returned None, ["No file found. Looking at data/P4_catalog_v1."])
  ∧ ReleaseManager.blotch_file ["data"; "P4_catalog_v1"]
      ["P4_catalog_v1_metadata.csv"; "P4_catalog_v1_L1C_fan.csv"]
    = (Returned None, ["No file found. Looking at data/P4_catalog_v1."]).
Proof.
  split.
  - apply (catalog_file_missing_prints_and_returns_None
             ["data"; "P4_catalog_v1"]
             ["P4_catalog_v1_metadata.csv"; "P4_catalog_v1_L1C_blotch.csv"]).
    repeat constructor.
  - apply (catalog_file_missing_prints_and_returns_None
             ["data"; "P4_catalog_v1"]
             ["P4_catalog_v1_metadata.csv"; "P4_catalog_v1_L1C_fan.csv"]).
    repeat constructor.
Defined.

Example fan_file_found :
  ReleaseManager.fan_file ["data"; "P4_catalog_v1"]
    ["P4_catalog_v1_metadata.csv"; "P4_catalog_v1_L1C_fan.csv"]
  = (Returned (Some ["data"; "P4_catalog_v1"; "P4_catalog_v1_L1C_fan.csv"]),
     []).
Proof. reflexivity. Qed.

(** ** Angle normalisation *)

Section angles.
Import Reduction.

Lemma pymod_range (x m : Q) :
  (0 < m)%Q → (0 <= pymod x m)%Q ∧ (pymod x m < m)%Q.
Proof.
  intros Hm. unfold pymod.
  set (q := (x / m)%Q). set (f := inject_Z (Qfloor q)).
  assert (Hx : (x == m * q)%Q).
  { unfold q. rewrite Qmult_div_r; [reflexivity|]. intros Hz. rewrite Hz in Hm.
    by apply Qlt_irrefl in Hm. }
  assert (Hlo : (m * f <= m * q)%Q).
  { apply Qmult_le_l; [done|]. apply Qfloor_le. }
  assert (Hhi : (m * q < m * (f + 1))%Q).
  { apply Qmult_lt_l; [done|]. unfold f.
    change 1%Q with (inject_Z 1). rewrite <- inject_Z_plus. apply Qlt_floor. }
  clearbody f. clearbody q. split; Lqa.lra.
Qed.

Lemma pymod_congruent (x m : Q) :
  ∃ k : Z, (pymod x m == x - m * inject_Z k)%Q.
Proof. exists (Qfloor (x / m)). reflexivity. Qed.

(** What normalising does to one row. *)
Lemma normalize_angles_row kind m (df : list classification) :
  (0 < m)%Q →
  Forall2
    (λ r r',
       if bool_decide (marking r = kind) then
         marking r' = marking r ∧ cells r' = cells r
         ∧ match angle r with
           | None => angle r' = None
           | Some a =>
               ∃ a', angle r' = Some a'
                 ∧ (0 <= a')%Q ∧ (a' < m)%Q
                 ∧ ∃ k : Z, (a' == a - m * inject_Z k)%Q
           end
       else r' = r)
    df (normalize_angles kind m df).
Proof.
  intros Hm. unfold normalize_angles. apply Forall2_fmap_r, Forall_Forall2_diag.
  apply Forall_forall. intros r _. unfold compose.
  destruct (bool_decide (marking r = kind)); [|done].
  split_and!; [done..|]. cbn [angle].
  destruct (angle r) as [a|]; [|done]. cbn [fmap option_fmap option_map].
  exists (pymod a m). destruct (pymod_range a m Hm).
  split_and!; [done..|]. apply pymod_congruent.
Qed.
End angles.


Example convert_ellipse_angles_sample :
  Reduction.angle <$>
    Reduction.convert_ellipse_angles
      [ Reduction.Classification "blotch" (Some (-30)%Q) [];
        Reduction.Classification "blotch" (Some 400%Q) [];
        Reduction.Classification "fan" (Some (-30)%Q) [];
        Reduction.Classification "interesting" None [] ]
  = [Some 150%Q; Some 40%Q; Some (-30)%Q; None].
Proof. reflexivity. Qed.

(** ** Fan geometry *)

Section fan_geometry.
Import Markings.
Local Open Scope R_scope.

Lemma rotate_vector_x_axis (l angle : R) :
  rotate_vector (l, 0) angle
  = (l * cos (radians angle), l * sin (radians angle)).
Proof. unfold rotate_vector. simpl. f_equal; ring. Qed.

Lemma norm_rotate_vector (v : vector) (angle : R) :
  norm (rotate_vector v angle) = norm v.
Proof.
  unfold norm, rotate_vector. simpl. f_equal.
  pose proof (sin2_cos2 (radians angle)) as Hunit. unfold Rsqr in Hunit.
  destruct v as [a b]. simpl.
  transitivity
    ((a * a + b * b)
     * (sin (radians angle) * sin (radians angle)
        + cos (radians angle) * cos (radians angle))); [ring|].
  rewrite Hunit. ring.
Qed.

Lemma norm_x_axis (l : R) : norm (l, 0) = Rabs l.
Proof.
  unfold norm. simpl. rewrite Rmult_0_l, Rplus_0_r.
  apply sqrt_Rsqr_abs.
Qed.
End fan_geometry.

(** C9. For every fan row, the arm length is
    [distance / (cos h + sin h)] with [h] the half spread in radians; the
    first arm is the vector [(length, 0)] turned by [angle - spread/2]
    degrees and the second the same vector turned by [angle + spread/2]
    degrees, by the rotation matrix [[cos, -sin], [sin, cos]]; both arms
    have magnitude [|length|]. *)
Theorem fan_arms (data : Markings.fan_row) :
  let fan := Markings.P4_Fan_init data in
  let length := Markings.get_arm_length data in
  let half := (Markings.spread data / 2)%R in
  let turned a :=
    (length * cos (Markings.radians a), length * sin (Markings.radians a))%R in
  length
    = (Markings.distance data
       / (cos (half * (PI / 180)) + sin (half * (PI / 180))))%R
  ∧ Markings.v1 fan
    = Markings.rotate_vector (length, 0%R) (Markings.angle data - half)%R
  ∧ Markings.v2 fan
    = Markings.rotate_vector (length, 0%R) (Markings.angle data + half)%R
  ∧ Markings.v1 fan = turned (Markings.angle data - half)%R
  ∧ Markings.v2 fan = turned (Markings.angle data + half)%R
  ∧ Markings.norm (Markings.v1 fan) = Rabs length
  ∧ Markings.norm (Markings.v2 fan) = Rabs length.
Proof.
  cbv zeta.
  assert (Hbeta :
    (Markings.angle data - Markings.spread data / 2 + Markings.spread data
     = Markings.angle data + Markings.spread data / 2)%R) by lra.
  unfold Markings.P4_Fan_init. cbn [Markings.v1 Markings.v2].
  rewrite Hbeta. split_and!.
  - reflexivity.
  - reflexivity.
  - reflexivity.
  - apply rotate_vector_x_axis.
  - apply rotate_vector_x_axis.
  - rewrite norm_rotate_vector. apply norm_x_axis.
  - rewrite norm_rotate_vector. apply norm_x_axis.
Qed.

(** ** Averaging repeated comparisons *)

Section fnotch.
Import FnotchResolver.
Implicit Types (df tmp : list candidate) (seen : list string).

Lemma drop_duplicates_elem seen df t :
  t ∈ drop_duplicates seen df → t ∈ df ∧ marking_id t ∉ seen.
Proof.
  revert seen. induction df as [|r rest IH]; intros seen; simpl.
  - by intros ?%not_elem_of_nil.
  - case_bool_decide as Hseen.
    + intros [? ?]%IH. split; [by right|done].
    + intros [->|Ht]%elem_of_cons; [split; [by left|done]|].
      apply IH in Ht as [? Hnot]. split; [by right|].
      intros ?. apply Hnot. by right.
Qed.

Lemma drop_duplicates_NoDup seen df :
  NoDup (marking_id <$> drop_duplicates seen df).
Proof.
  revert seen. induction df as [|r rest IH]; intros seen; simpl.
  - constructor.
  - case_bool_decide as Hseen; [apply IH|].
    rewrite fmap_cons. constructor; [|apply IH].
    intros (t & Heq & Ht)%list_elem_of_fmap.
    apply drop_duplicates_elem in Ht as [_ Hnot].
    apply Hnot. rewrite <- Heq. by left.
Qed.

Lemma drop_duplicates_complete seen df r :
  r ∈ df → marking_id r ∉ seen →
  marking_id r ∈ marking_id <$> drop_duplicates seen df.
Proof.
  revert seen. induction df as [|r' rest IH]; intros seen; simpl.
  - by intros ?%not_elem_of_nil.
  - intros [->|Hr]%elem_of_cons Hnot.
    + rewrite bool_decide_eq_false_2 by done. rewrite fmap_cons. by left.
    + case_bool_decide as Hseen; [by apply IH|].
      rewrite ?fmap_cons.
      destruct (decide (marking_id r = marking_id r')) as [->|Hne];
        [by left|].
      right. apply IH; [done|].
      intros [?|?]%elem_of_cons; [by apply Hne|by apply Hnot].
Qed.

Lemma filter_none {A} (P : A → Prop) `{!∀ x, Decision (P x)} (l : list A) :
  Forall (λ x, ¬ P x) l → filter P l = [].
Proof.
  induction 1 as [|x l Hx _ IH]; [done|]. by rewrite filter_cons_False.
Qed.

(** In a table without repeated ids, selecting an id that occurs gives
    exactly one row. *)
Lemma filter_key_singleton tmp key :
  NoDup (marking_id <$> tmp) → key ∈ marking_id <$> tmp →
  ∃ t, filter (λ t, marking_id t = key) tmp = [t]
       ∧ marking_id t = key ∧ t ∈ tmp.
Proof.
  induction tmp as [|u tmp IH]; simpl.
  - by intros _ ?%not_elem_of_nil.
  - rewrite ?fmap_cons. intros [Hu Hnodup]%NoDup_cons.
    destruct (decide (marking_id u = key)) as [Heq|Hne].
    + intros _. exists u. rewrite filter_cons_True by done.
      split_and!; [|done|by left]. f_equal.
      apply (filter_none (λ t, marking_id t = key)). apply Forall_forall.
      intros t Ht Hkey. apply Hu. rewrite Heq, <- Hkey.
      by apply list_elem_of_fmap_2.
    + intros [?|Hkey]%elem_of_cons; [congruence|].
      destruct (IH Hnodup Hkey) as (t & Hfilter & ? & ?).
      exists t. rewrite filter_cons_False by done.
      split_and!; [done..|by right].
Qed.

(** Joining one row per key onto such a table keeps the keys, in order,
    and attaches to each the identity columns of its row. *)
Lemma join_keys (means : string → list (option Q)) tmp (keys : list string) :
  NoDup (marking_id <$> tmp) →
  Forall (.∈ marking_id <$> tmp) keys →
  Forall2
    (λ key r,
       avg_marking_id r = key ∧ avg_numbers r = means key
       ∧ ∃ t, t ∈ tmp ∧ marking_id t = key
              ∧ avg_image_id r = image_id t ∧ avg_obsid r = obsid t)
    keys (join ((λ key, (key, means key)) <$> keys) tmp).
Proof.
  intros Hnodup. induction 1 as [|key keys Hkey _ IH]; [constructor|].
  unfold join. rewrite ?fmap_cons, ?bind_cons.
  destruct (filter_key_singleton tmp key Hnodup Hkey) as (t & -> & ? & ?).
  simpl. constructor; [|exact IH]. eauto 10.
Qed.
End fnotch.

Section fnotch_table.
Import FnotchResolver.

(** With no cell missing, the mean is the sum over the count. *)
Lemma mean_all_present (x : Q) (xs : list Q) :
  mean (Some <$> x :: xs)
  = Some (sum (x :: xs) / inject_Z (Z.of_nat (length (x :: xs))))%Q.
Proof.
  unfold mean.
  assert (Hpresent : ∀ l : list Q, omap (λ cell, cell) (Some <$> l) = l).
  { induction l as [|y l IH]; [done|]. csimpl. by f_equal. }
  by rewrite Hpresent.
Qed.

Lemma merge_fnotch_table_spec (df : list candidate) :
  let out := merge_fnotch_table df in
  NoDup (avg_marking_id <$> out)
  ∧ avg_marking_id <$> out ≡ₚ remove_dups (marking_id <$> df)
  ∧ Forall
      (λ r,
         let rows := group df (avg_marking_id r) in
         avg_numbers r = (λ j, mean (column j rows)) <$> seq 0 (width df)
         ∧ ∃ rep, rep ∈ rows
                  ∧ avg_image_id r = image_id rep
                  ∧ avg_obsid r = obsid rep)
      out.
Proof.
  cbv zeta. unfold merge_fnotch_table, groupby_mean.
  set (keys := merge_sort String.le (remove_dups (marking_id <$> df))).
  set (means := λ key,
         (λ j, mean (column j (group df key))) <$> seq 0 (width df)).
  assert (Hperm : keys ≡ₚ remove_dups (marking_id <$> df))
    by apply merge_sort_Permutation.
  assert (Hkeys : Forall (.∈ marking_id <$> drop_duplicates [] df) keys).
  { apply Forall_forall. intros key Hkey. rewrite Hperm in Hkey.
    apply elem_of_remove_dups, list_elem_of_fmap in Hkey as (r & -> & Hr).
    apply drop_duplicates_complete; [done|apply not_elem_of_nil]. }
  pose proof (join_keys means _ keys (drop_duplicates_NoDup [] df) Hkeys)
    as Hjoin.
  change (λ key : string,
            (key, (λ j, mean (column j (group df key))) <$> seq 0 (width df)))
    with (λ key : string, (key, means key)).
  set (out := join ((λ key, (key, means key)) <$> keys)
                (drop_duplicates [] df)) in *.
  assert (Hids : avg_marking_id <$> out = keys).
  { clear -Hjoin. induction Hjoin as [|key r keys out (<- & _) _ IH]; [done|].
    rewrite fmap_cons. by f_equal. }
  split_and!.
  - rewrite Hids, Hperm. apply NoDup_remove_dups.
  - by rewrite Hids.
  - clear -Hjoin. induction Hjoin as [|key r keys out Hr _ IH]; [done|].
    constructor; [|exact IH].
    destruct Hr as (<- & -> & t & Ht & Hkey & ? & ?). split; [done|].
    exists t. split_and!; [|done..].
    apply drop_duplicates_elem in Ht as [Ht _].
    unfold group. apply list_elem_of_filter. by split.
Qed.
End fnotch_table.


(** ** Joining ground coordinates *)

Section ground_coordinates.
Import GroundCoordinates.

Lemma elem_of_merge left right (m : candidate * list Q) :
  m ∈ merge left right
  ↔ ∃ c g,
      c ∈ left ∧ g ∈ right ∧ same_key c g = true ∧ m = (c, snd g).
Proof.
  unfold merge. rewrite list_elem_of_bind. split.
  - intros (c & (g & -> & Hg)%list_elem_of_fmap & Hc).
    apply list_elem_of_In, filter_In in Hg as [Hg Hkey].
    apply list_elem_of_In in Hg. eauto 10.
  - intros (c & g & Hc & Hg & Hkey & ->). exists c. split; [|done].
    apply list_elem_of_fmap. exists g. split; [done|].
    apply list_elem_of_In, filter_In. by rewrite <- list_elem_of_In.
Qed.

(** A candidate row and a collected row are joined when the candidate's
    key, as it stands, equals the rounded key of the collected row. *)
Lemma elem_of_merge_rounded candidates collected (m : candidate * list Q) :
  m ∈ merge candidates (COLS_TO_MERGE (round_frame 7 collected))
  ↔ ∃ c g, c ∈ candidates ∧ g ∈ collected
           ∧ obsid c = g_obsid g
           ∧ (image_x c == round 7 (g_image_x g))%Q
           ∧ (image_y c == round 7 (g_image_y g))%Q
           ∧ m = (c, round 7 <$> g_coordinates g).
Proof.
  rewrite elem_of_merge. unfold COLS_TO_MERGE, round_frame. split.
  - intros (c & p & Hc & Hp & Hkey & ->).
    apply list_elem_of_fmap in Hp as (g' & -> & Hg').
    apply list_elem_of_fmap in Hg' as (g & -> & Hg).
    simpl in Hkey.
    apply andb_prop in Hkey as [Hkey Hy]. apply andb_prop in Hkey as [Ho Hx].
    apply bool_decide_eq_true_1 in Ho.
    apply Qeq_bool_iff in Hx. apply Qeq_bool_iff in Hy.
    exists c, g. by split_and!.
  - intros (c & g & Hc & Hg & Ho & Hx & Hy & ->).
    eexists c, _. split_and!; [done| | |].
    + apply list_elem_of_fmap. eexists. split; [reflexivity|].
      apply list_elem_of_fmap. eexists. split; [reflexivity|exact Hg].
    + simpl. rewrite bool_decide_eq_true_2 by done.
      apply Qeq_bool_iff in Hx. apply Qeq_bool_iff in Hy. by rewrite Hx, Hy.
    + done.
Qed.
End ground_coordinates.

(** C2 as stated fails: a fan and a collected position with the same
    unrounded pixel coordinates are not joined, although they are once
    both sides are rounded to seven decimals. *)
Lemma candidates_not_rounded_before_join :
  fst (GroundCoordinates.merge_campt_results GroundCoordinates.sample_ground
         GroundCoordinates.sample_unrounded_fans []) = []
  ∧ fst (GroundCoordinates.merge_both_sides_rounded
           GroundCoordinates.sample_ground
           GroundCoordinates.sample_unrounded_fans []) ≠ [].
Proof. split; [by vm_compute|]. vm_compute. discriminate. Qed.

(** C2, as the code has it.  Only the collected ground table is rounded to
    seven decimals (all its numeric columns); the fan and the blotch table
    enter the inner join as they are.  So the rows of either result are the
    pairs of a candidate row and a collected row with the same [obsid]
    whose [image_x] and [image_y] equal the rounded ones of the collected
    row, each carrying the candidate's columns and the rounded ground
    coordinates. *)
Theorem merge_campt_results_rounds_ground_only
    (collected : list GroundCoordinates.ground_row)
    (fans blotches : list GroundCoordinates.candidate)
    (m : GroundCoordinates.candidate * list Q) :
  let joined candidates :=
    ∃ c g, c ∈ candidates ∧ g ∈ collected
      ∧ GroundCoordinates.obsid c = GroundCoordinates.g_obsid g
      ∧ (GroundCoordinates.image_x c
         == GroundCoordinates.round 7 (GroundCoordinates.g_image_x g))%Q
      ∧ (GroundCoordinates.image_y c
         == GroundCoordinates.round 7 (GroundCoordinates.g_image_y g))%Q
      ∧ m = (c, GroundCoordinates.round 7
                  <$> GroundCoordinates.g_coordinates g) in
  let merged :=
    GroundCoordinates.merge_campt_results collected fans blotches in
  (m ∈ fst merged ↔ joined fans) ∧ (m ∈ snd merged ↔ joined blotches).
Proof.
  cbv zeta. unfold GroundCoordinates.merge_campt_results. simpl.
  split; apply elem_of_merge_rounded.
Qed.

Lemma merge_campt_results_rounds_ground_only_witness :
  ( GroundCoordinates.Candidate "ESP_011296_0975" 100.1234568%Q 200.5%Q
      ["F000000"],
    GroundCoordinates.round 7
      <$> [1.5%Q; 2.5%Q; 3.5%Q; (-85.123456789)%Q; (-85.2)%Q; 101.25%Q] )
  ∈ fst (GroundCoordinates.merge_campt_results GroundCoordinates.sample_ground
           GroundCoordinates.sample_rounded_fans []).
Proof.
  apply (merge_campt_results_rounds_ground_only
           GroundCoordinates.sample_ground
           GroundCoordinates.sample_rounded_fans []).
  eexists _, _. split_and!.
  - apply list_elem_of_here.
  - apply list_elem_of_here.
  - reflexivity.
  - reflexivity.
  - reflexivity.
  - reflexivity.
Defined.

(** * Further properties *)

(** ** Running out of identifiers *)

Section marking_ids_exhausted.
Import MarkingIds.
Implicit Types (w : world) (k : kind) (p : path).

Lemma collect_ids_exhausted k n acc w :
  length (gen k w) < n →
  collect_ids k n acc w = (Raised StopIteration, set_gen k [] w).
Proof.
  revert acc w. induction n as [|n IH]; intros acc w Hn; [lia|].
  change (collect_ids k (S n) acc w)
    with ((x ← next_id k; collect_ids k n (acc ++ [x])) w).
  unfold mbind at 1, M_bind. unfold next_id.
  destruct (gen k w) as [|x g'] eqn:Hg.
  - unfold next. cbv beta iota. by rewrite <- Hg, set_gen_gen.
  - unfold next. cbv beta iota. rewrite IH.
    + by rewrite set_gen_set_gen.
    + rewrite gen_set_gen, decide_True by done. simpl in Hn. lia.
Qed.
End marking_ids_exhausted.

(** When the fans file of a directory has more rows than the fan generator
    has identifiers left, [add_marking_ids] raises [StopIteration]: the fan
    generator ends up exhausted, no file is written (the fans file keeps
    its content) and the blotches file is not reached, so the blotch
    generator is untouched. *)
Theorem add_marking_ids_out_of_fan_ids
    (p : MarkingIds.path) (w : MarkingIds.world) (df : MarkingIds.frame) :
  MarkingIds.files w !! MarkingIds.fname p MarkingIds.Fans = Some df →
  length (MarkingIds.fan_id w) < length df →
  MarkingIds.add_marking_ids p w
  = (Raised StopIteration,
     MarkingIds.World (MarkingIds.files w) [] (MarkingIds.blotch_id w)
       (MarkingIds.written w)).
Proof.
  intros Hdf Hlen.
  unfold MarkingIds.add_marking_ids, MarkingIds.for_each.
  unfold mbind at 1, MarkingIds.M_bind.
  unfold MarkingIds.add_marking_ids_kind, MarkingIds.read_csv.
  rewrite Hdf. unfold mbind, MarkingIds.M_bind.
  rewrite collect_ids_exhausted by done. reflexivity.
Qed.

Lemma add_marking_ids_out_of_fan_ids_witness :
  MarkingIds.add_marking_ids MarkingIds.sample_dir
    (MarkingIds.World (MarkingIds.files MarkingIds.sample_world)
       ["F000000"] ["B000000"] [])
  = (Raised StopIteration,
     MarkingIds.World (MarkingIds.files MarkingIds.sample_world)
       [] ["B000000"] []).
Proof.
  eapply (add_marking_ids_out_of_fan_ids MarkingIds.sample_dir
            (MarkingIds.World (MarkingIds.files MarkingIds.sample_world)
               ["F000000"] ["B000000"] [])).
  - vm_compute. reflexivity.
  - simpl. lia.
Defined.

(** ** Identifiers over several directories *)

Section several_directories.
Import MarkingIds Launch.
Implicit Types (w : world) (k : kind) (p : path) (dirs : list path).

Lemma fname_inj p1 k1 p2 k2 : fname p1 k1 = fname p2 k2 → p1 = p2 ∧ k1 = k2.
Proof.
  unfold fname. intros Heq. pose proof Heq as [-> _]%app_inj_tail.
  split; [done|]. by apply (fname_kind_inj p2).
Qed.

(** One directory, file by file. *)
Lemma add_marking_ids_spec p w :
  (∀ k, from_option length 0 (files w !! fname p k) ≤ length (gen k w)) →
  ∃ w',
    add_marking_ids p w = (Returned (), w')
    ∧ (∀ k, gen k w'
            = drop (from_option length 0 (files w !! fname p k)) (gen k w))
    ∧ (∀ f, (∀ k, f ≠ fname p k) → files w' !! f = files w !! f)
    ∧ (∀ k, files w' !! fname p k
            = (λ df, set_marking_ids df (take (length df) (gen k w)))
              <$> files w !! fname p k).
Proof.
  intros Hlen.
  assert (Hne : fname p Fans ≠ fname p Blotches)
    by (intros [=]%fname_kind_inj).
  pose proof (Hlen Fans) as HF. pose proof (Hlen Blotches) as HB.
  unfold add_marking_ids, for_each.
  unfold mbind, M_bind, mret, M_ret.
  rewrite (add_marking_ids_kind_spec p Fans w)
    by (intros df Hdf; by rewrite Hdf in HF).
  destruct (files w !! fname p Fans) as [dfF|] eqn:HfF;
    cbv zeta; cbv beta iota;
    rewrite add_marking_ids_kind_spec;
    cbn [files gen fan_id blotch_id written set_gen];
    rewrite ?lookup_insert_ne by done;
    try (intros df Hdf; by rewrite Hdf in HB);
    destruct (files w !! fname p Blotches) as [dfB|] eqn:HfB;
    cbv zeta; cbv beta iota; eexists; (split; [reflexivity|]);
    cbn [files gen fan_id blotch_id written set_gen];
    (split_and!;
     [ intros [|]; cbn [gen fan_id blotch_id from_option];
       rewrite ?HfF, ?HfB; by rewrite ?drop_0
     | intros f Hf; pose proof (Hf Fans); pose proof (Hf Blotches);
       by rewrite ?lookup_insert_ne by done
     | intros [|]; cbn [gen fan_id blotch_id];
       rewrite ?HfF, ?HfB;
       rewrite ?lookup_insert_eq, ?lookup_insert_ne by done;
       by rewrite ?lookup_insert_eq, ?HfF, ?HfB ]).
Qed.

Lemma total_rows_cons k (fs : gmap path frame) p dirs :
  total_rows k fs (p :: dirs)
  = from_option length 0 (fs !! fname p k) + total_rows k fs dirs.
Proof. done. Qed.

Lemma total_rows_app k (fs : gmap path frame) dirs1 dirs2 :
  total_rows k fs (dirs1 ++ dirs2)
  = total_rows k fs dirs1 + total_rows k fs dirs2.
Proof.
  induction dirs1 as [|p dirs1 IH]; [done|].
  rewrite <- app_comm_cons, !total_rows_cons, IH. lia.
Qed.

Lemma total_rows_ext k (fs1 fs2 : gmap path frame) dirs :
  (∀ q, q ∈ dirs → fs1 !! fname q k = fs2 !! fname q k) →
  total_rows k fs1 dirs = total_rows k fs2 dirs.
Proof.
  induction dirs as [|q dirs IH]; intros Hext; [done|].
  rewrite !total_rows_cons, Hext by left. f_equal. apply IH.
  intros q' Hq'. apply Hext. by right.
Qed.

Lemma total_rows_take_le k (fs : gmap path frame) dirs i j :
  i ≤ j → total_rows k fs (take i dirs) ≤ total_rows k fs (take j dirs).
Proof.
  intros Hij. replace j with (i + (j - i)) by lia.
  rewrite <- take_take_drop, total_rows_app. lia.
Qed.

(** All the directories of a run: every file receives the segment of its
    generator that starts after the rows of the directories before it. *)
Lemma for_each_dirs_spec dirs w :
  NoDup dirs →
  (∀ k, total_rows k (files w) dirs ≤ length (gen k w)) →
  ∃ w',
    for_each dirs add_marking_ids w = (Returned (), w')
    ∧ (∀ k, gen k w' = drop (total_rows k (files w) dirs) (gen k w))
    ∧ (∀ f, (∀ p k, p ∈ dirs → f ≠ fname p k) →
            files w' !! f = files w !! f)
    ∧ (∀ i p k, dirs !! i = Some p →
         files w' !! fname p k
         = (λ df,
              set_marking_ids df
                (take (length df)
                   (drop (total_rows k (files w) (take i dirs)) (gen k w))))
           <$> files w !! fname p k).
Proof.
  revert w. induction dirs as [|p dirs IH]; intros w Hnodup Hlen.
  - exists w. split_and!; [done|intros k; by rewrite drop_0|done|].
    intros i p k Hi. by rewrite lookup_nil in Hi.
  - apply NoDup_cons in Hnodup as [Hp Hnodup].
    destruct (add_marking_ids_spec p w) as (w1 & Hrun1 & Hgen1 & Hframe1 & Hp1).
    { intros k. specialize (Hlen k). rewrite total_rows_cons in Hlen. lia. }
    assert (Hother : ∀ q k, q ∈ dirs → files w1 !! fname q k = files w !! fname q k).
    { intros q k Hq. apply Hframe1. intros k' [-> _]%fname_inj. done. }
    assert (Htotal : ∀ k l, l ⊆ dirs →
              total_rows k (files w1) l = total_rows k (files w) l).
    { intros k l Hl. apply total_rows_ext. intros q Hq. apply Hother. auto. }
    destruct (IH w1 Hnodup) as (w' & Hrun & Hgen & Hframe & Hfiles).
    { intros k. specialize (Hlen k). rewrite total_rows_cons in Hlen.
      rewrite Htotal, Hgen1, length_drop by done. lia. }
    exists w'. split_and!.
    + change (for_each (p :: dirs) add_marking_ids w)
        with ((_ ← add_marking_ids p; for_each dirs add_marking_ids) w).
      unfold mbind, M_bind. by rewrite Hrun1.
    + intros k. rewrite Hgen, Hgen1, drop_drop, Htotal by done.
      by rewrite total_rows_cons.
    + intros f Hf. rewrite Hframe.
      * apply Hframe1. intros k. apply Hf. by left.
      * intros q k Hq. apply Hf. by right.
    + intros [|i] q k Hq.
      * injection Hq as <-. rewrite Hframe.
        -- by rewrite Hp1, take_0, drop_0.
        -- intros q k' Hq [-> _]%fname_inj. done.
      * simpl in Hq. rewrite (Hfiles i q k Hq).
        rewrite Hother by (by eapply list_elem_of_lookup_2).
        rewrite Hgen1, drop_drop, Htotal.
        -- by rewrite firstn_cons, total_rows_cons.
        -- intros x Hx. eapply elem_of_sublist; [exact Hx|apply sublist_take].
Qed.
End several_directories.

Section unique_over_directories.
Import MarkingIds Launch.
Implicit Types (w : world) (k : kind) (p : path) (dirs : list path).

Lemma for_each_app {A} (l1 l2 : list A) (body : A → M unit) w :
  for_each (l1 ++ l2) body w
  = (_ ← for_each l1 body; for_each l2 body) w.
Proof.
  revert w. induction l1 as [|x l1 IH]; intros w; [done|].
  rewrite <- app_comm_cons.
  change (for_each (x :: l1 ++ l2) body w)
    with ((_ ← body x; for_each (l1 ++ l2) body) w).
  change (for_each (x :: l1) body)
    with (_ ← body x; for_each l1 body).
  unfold mbind, M_bind. destruct (body x w) as [[[]|e] w1]; [|done].
  rewrite IH. done.
Qed.

Lemma for_each_bind {A B} (l : list A) (f : A → list B) (body : B → M unit) w :
  for_each l (λ x, for_each (f x) body) w = for_each (l ≫= f) body w.
Proof.
  revert w. induction l as [|x l IH]; intros w; [done|].
  rewrite bind_cons, for_each_app.
  change (for_each (x :: l) (λ x, for_each (f x) body) w)
    with ((_ ← for_each (f x) body;
           for_each l (λ x, for_each (f x) body)) w).
  unfold mbind, M_bind. destruct (for_each (f x) body w) as [[[]|e] w1]; [|done].
  apply IH.
Qed.

Lemma assigned_id_lookup (d : frame) (g : list string) off j (r : row) :
  set_marking_ids d (take (length d) (drop off g)) !! j = Some r →
  j < length d ∧ ∃ x, g !! (off + j) = Some x ∧ r !! "marking_id" = Some x.
Proof.
  unfold set_marking_ids.
  intros (r' & x & -> & Hr' & Hx)%lookup_zip_with_Some.
  apply lookup_take_Some in Hx as [Hx Hj]. rewrite lookup_drop in Hx.
  split; [done|]. exists x. split; [done|]. apply lookup_insert_eq.
Qed.

Lemma total_rows_take_S k (fs : gmap path frame) dirs i p (d : frame) :
  dirs !! i = Some p → fs !! fname p k = Some d →
  total_rows k fs (take (S i) dirs)
  = total_rows k fs (take i dirs) + length d.
Proof.
  intros Hi Hd. rewrite (take_S_r _ _ _ Hi), total_rows_app.
  rewrite total_rows_cons, Hd. simpl. unfold total_rows. simpl. lia.
Qed.
End unique_over_directories.

(** The marking ids created by a run of [launch_catalog_production] are
    unique per kind across all directories: when the directories of the
    observations to do are pairwise distinct and each kind has at most
    [16^6] rows in total, the step returns, and any two different rows of
    files of the same kind, in the same or in different directories, hold
    different marking ids. *)
Theorem create_marking_ids_unique
    (get_L1A_paths : string → list MarkingIds.path) (todo : list string)
    (w : MarkingIds.world) :
  let dirs := todo ≫= get_L1A_paths in
  NoDup dirs →
  (∀ k, (N.of_nat (Launch.total_rows k (MarkingIds.files w) dirs)
         ≤ IdentifierAllocator.address_space)%N) →
  ∃ w',
    Launch.create_marking_ids get_L1A_paths todo w = (Returned (), w')
    ∧ ∀ k p1 p2 (df1 df2 : MarkingIds.frame) j1 j2 (r1 r2 : MarkingIds.row),
        p1 ∈ dirs → p2 ∈ dirs →
        MarkingIds.files w' !! MarkingIds.fname p1 k = Some df1 →
        MarkingIds.files w' !! MarkingIds.fname p2 k = Some df2 →
        df1 !! j1 = Some r1 → df2 !! j2 = Some r2 →
        (p1, j1) ≠ (p2, j2) →
        ∃ x1 x2,
          r1 !! "marking_id" = Some x1 ∧ r2 !! "marking_id" = Some x2
          ∧ x1 ≠ x2.
Proof.
  intros dirs Hnodup Hspace.
  unfold Launch.create_marking_ids. cbv zeta.
  set (w0 := MarkingIds.World (MarkingIds.files w)
               IdentifierAllocator.fan_id_generator
               IdentifierAllocator.blotch_id_generator (MarkingIds.written w)).
  rewrite for_each_bind. fold dirs.
  assert (Hg : ∀ k, NoDup (MarkingIds.gen k w0)
                    ∧ N.of_nat (length (MarkingIds.gen k w0))
                      = IdentifierAllocator.address_space).
  { intros []; (split; [apply NoDup_id_generator|apply length_id_generator]). }
  destruct (for_each_dirs_spec dirs w0 Hnodup) as (w' & Hrun & _ & _ & Hfiles).
  { intros k. specialize (Hspace k). destruct (Hg k) as [_ Hlen].
    change (MarkingIds.files w0) with (MarkingIds.files w). lia. }
  exists w'. split; [done|].
  intros k p1 p2 df1 df2 j1 j2 r1 r2
    [i1 Hi1]%list_elem_of_lookup [i2 Hi2]%list_elem_of_lookup
    Hdf1 Hdf2 Hr1 Hr2 Hne.
  rewrite (Hfiles i1 p1 k Hi1) in Hdf1. rewrite (Hfiles i2 p2 k Hi2) in Hdf2.
  destruct (MarkingIds.files w0 !! MarkingIds.fname p1 k) as [d1|] eqn:Hd1;
    [|done].
  destruct (MarkingIds.files w0 !! MarkingIds.fname p2 k) as [d2|] eqn:Hd2;
    [|done].
  injection Hdf1 as <-. injection Hdf2 as <-.
  apply assigned_id_lookup in Hr1 as (Hj1 & x1 & Hx1 & Hid1).
  apply assigned_id_lookup in Hr2 as (Hj2 & x2 & Hx2 & Hid2).
  exists x1, x2. split_and!; [done..|]. intros <-.
  destruct (Hg k) as [Hgnodup _].
  pose proof (NoDup_lookup _ _ _ _ Hgnodup Hx1 Hx2) as Hpos.
  pose proof (total_rows_take_S k _ _ _ _ _ Hi1 Hd1) as HS1.
  pose proof (total_rows_take_S k _ _ _ _ _ Hi2 Hd2) as HS2.
  change (MarkingIds.files w0) with (MarkingIds.files w) in *.
  destruct (lt_eq_lt_dec i1 i2) as [[Hlt|Heq]|Hlt].
  - pose proof (total_rows_take_le k (MarkingIds.files w) dirs (S i1) i2
                  ltac:(lia)).
    lia.
  - subst i2. rewrite Hi1 in Hi2. injection Hi2 as <-.
    apply Hne. f_equal. lia.
  - pose proof (total_rows_take_le k (MarkingIds.files w) dirs (S i2) i1
                  ltac:(lia)).
    lia.
Qed.

Lemma create_marking_ids_unique_witness :
  ∃ w',
    Launch.create_marking_ids Launch.sample_paths Launch.sample_todo
      Launch.sample_world = (Returned (), w').
Proof.
  destruct (create_marking_ids_unique Launch.sample_paths Launch.sample_todo
              Launch.sample_world) as (w' & Hrun & _).
  - apply (bool_decide_unpack _). by vm_compute.
  - intros []; vm_compute; discriminate.
  - exists w'. exact Hrun.
Defined.

(** ** Resuming a run *)

Section resume.
Import WorkUnitTracker.

Lemma filter_sublist_impl {A} (f g : A → bool) (l : list A) :
  (∀ x, f x = true → g x = true) →
  List.filter f l `sublist_of` List.filter g l.
Proof.
  intros Hfg. induction l as [|x l IH]; simpl; [constructor|].
  destruct (f x) eqn:Hf.
  - rewrite (Hfg x Hf). by constructor.
  - destruct (g x); [by constructor|done].
Qed.

Lemma exists_mono (fs fs' : gset (list string)) path :
  fs ⊆ fs' → exists_ fs path = true → exists_ fs' path = true.
Proof.
  unfold exists_. intros Hsub Hin%bool_decide_eq_true_1.
  apply bool_decide_eq_true_2. by apply Hsub.
Qed.
End resume.

(** Resuming with [overwrite=False]: when output directories have only been
    added since the last call, the observations still to do are among those
    of the last call, in the same order; and once every observation of the
    last result has its output directory, nothing is left to do. *)
Theorem check_for_todo_resume
    (folder : string → list string) (fs fs' : gset (list string))
    (self_overwrite : bool) (obsids : list string) :
  fs ⊆ fs' →
  let todo :=
    WorkUnitTracker.check_for_todo folder fs self_overwrite obsids
      (Some false) in
  let todo' :=
    WorkUnitTracker.check_for_todo folder fs' self_overwrite obsids
      (Some false) in
  todo' `sublist_of` todo
  ∧ ((∀ o, o ∈ todo → folder o ++ [o] ∈ fs') → todo' = []).
Proof.
  intros Hsub. cbv zeta. rewrite !check_for_todo_filter. simpl. split.
  - apply filter_sublist_impl. intros o. unfold WorkUnitTracker.done_.
    rewrite !andb_true_r.
    destruct (WorkUnitTracker.exists_ fs (folder o ++ [o])) eqn:Hex; [|done].
    by rewrite (exists_mono fs fs' _ Hsub Hex).
  - intros Hdone. induction obsids as [|o rest IH]; [done|].
    simpl in *. unfold WorkUnitTracker.done_ in *.
    rewrite !andb_true_r in *.
    assert (Ho : WorkUnitTracker.exists_ fs' (folder o ++ [o]) = true).
    { destruct (WorkUnitTracker.exists_ fs (folder o ++ [o])) eqn:Hex.
      - by apply (exists_mono fs fs').
      - apply bool_decide_eq_true_2, Hdone. simpl. by left. }
    rewrite Ho. simpl. apply IH. intros o' Ho'. apply Hdone.
    destruct (negb (WorkUnitTracker.exists_ fs (folder o ++ [o])));
      [by right|done].
Qed.

Lemma check_for_todo_resume_witness :
  WorkUnitTracker.check_for_todo WorkUnitTracker.sample_results_savefolder
    WorkUnitTracker.sample_fs_rerun false ["A"; "B"] (Some false) = [].
Proof.
  apply (check_for_todo_resume WorkUnitTracker.sample_results_savefolder
           WorkUnitTracker.sample_fs WorkUnitTracker.sample_fs_rerun
           false ["A"; "B"]).
  - apply (bool_decide_unpack _). by vm_compute.
  - intros o Ho. vm_compute in Ho.
    apply list_elem_of_singleton in Ho as ->.
    apply (bool_decide_unpack _). by vm_compute.
Defined.

(** ** More on averaging repeated comparisons *)

Section fnotch_more.
Import FnotchResolver.

Lemma merge_fnotch_table_ids (df : list candidate) :
  avg_marking_id <$> merge_fnotch_table df
  = merge_sort String.le (remove_dups (marking_id <$> df)).
Proof.
  unfold merge_fnotch_table, groupby_mean.
  set (keys := merge_sort String.le (remove_dups (marking_id <$> df))).
  set (means := λ key,
         (λ j, mean (column j (group df key))) <$> seq 0 (width df)).
  assert (Hkeys : Forall (.∈ marking_id <$> drop_duplicates [] df) keys).
  { apply Forall_forall. intros key Hkey.
    unfold keys in Hkey. rewrite merge_sort_Permutation in Hkey.
    apply elem_of_remove_dups, list_elem_of_fmap in Hkey as (r & -> & Hr).
    apply drop_duplicates_complete; [done|apply not_elem_of_nil]. }
  pose proof (join_keys means _ keys (drop_duplicates_NoDup [] df) Hkeys)
    as Hjoin.
  change (λ key : string,
            (key, (λ j, mean (column j (group df key))) <$> seq 0 (width df)))
    with (λ key : string, (key, means key)).
  set (out := join ((λ key, (key, means key)) <$> keys)
                (drop_duplicates [] df)) in *.
  clear -Hjoin. induction Hjoin as [|key r ks out' (<- & _) _ IH]; [done|].
  rewrite fmap_cons. by f_equal.
Qed.

Lemma mean_singleton (cell : option Q) :
  option_Forall2 Qeq (mean [cell]) cell.
Proof.
  destruct cell as [x|]; [|constructor].
  unfold mean. simpl. constructor. unfold sum. simpl. field.
Qed.
End fnotch_more.

(** The tables [merge_fnotch_results] returns are sorted by [marking_id],
    whatever the order of the input rows. *)
Theorem merge_fnotch_results_sorted
    (fans blotches : list FnotchResolver.candidate) :
  Forall
    (λ out, StronglySorted String.le (FnotchResolver.avg_marking_id <$> out))
    (FnotchResolver.merge_fnotch_results fans blotches).
Proof.
  unfold FnotchResolver.merge_fnotch_results.
  repeat constructor; rewrite merge_fnotch_table_ids;
    apply (StronglySorted_merge_sort String.le).
Qed.

(** A marking that occurs in a single row of the input keeps its values:
    the row of the result with its [marking_id] has, column by column, the
    same numbers (a missing cell stays missing) and the same [image_id] and
    [obsid]. *)
Theorem merge_fnotch_table_keeps_single
    (df : list FnotchResolver.candidate) (r : FnotchResolver.candidate)
    (a : FnotchResolver.averaged) :
  FnotchResolver.group df (FnotchResolver.marking_id r) = [r] →
  length (FnotchResolver.numbers r) = FnotchResolver.width df →
  a ∈ FnotchResolver.merge_fnotch_table df →
  FnotchResolver.avg_marking_id a = FnotchResolver.marking_id r →
  Forall2 (option_Forall2 Qeq)
    (FnotchResolver.avg_numbers a) (FnotchResolver.numbers r)
  ∧ FnotchResolver.avg_image_id a = FnotchResolver.image_id r
  ∧ FnotchResolver.avg_obsid a = FnotchResolver.obsid r.
Proof.
  intros Hgroup Hwidth Ha Hid.
  destruct (merge_fnotch_table_spec df) as (_ & _ & Hrows).
  rewrite Forall_forall in Hrows. specialize (Hrows a Ha). cbv zeta in Hrows.
  rewrite Hid, Hgroup in Hrows.
  destruct Hrows as (Hnumbers & rep & ->%list_elem_of_singleton & ? & ?).
  split_and!; [|done..].
  rewrite Hnumbers, <- Hwidth.
  apply Forall2_same_length_lookup_2.
  - by rewrite length_fmap, length_seq.
  - intros j m cell Hm Hcell.
    rewrite list_lookup_fmap in Hm.
    pose proof (lookup_lt_Some _ _ _ Hcell) as Hj.
    rewrite lookup_seq_lt in Hm by done. injection Hm as <-.
    unfold FnotchResolver.column.
    change ((λ r0, mjoin (FnotchResolver.numbers r0 !! j)) <$> [r])
      with [mjoin (FnotchResolver.numbers r !! j)].
    rewrite Hcell. apply mean_singleton.
Qed.

Lemma merge_fnotch_table_keeps_single_witness :
  let r :=
    FnotchResolver.Candidate "F000001" "APF0000x3t" "ESP_011296_0975" ["fan"]
      [Some 0.7%Q; None] in
  let df :=
    [ FnotchResolver.Candidate "F000002" "APF0000x3t" "ESP_011296_0975"
        ["fan"] [Some 0.2%Q; Some 1.5%Q];
      r;
      FnotchResolver.Candidate "F000002" "APF0000x3t" "ESP_011296_0975"
        ["fan"] [Some 0.6%Q; Some 2.5%Q] ] in
  let a :=
    FnotchResolver.Averaged "F000001" [Some 0.7%Q; None]
      "APF0000x3t" "ESP_011296_0975" in
  Forall2 (option_Forall2 Qeq)
    (FnotchResolver.avg_numbers a) (FnotchResolver.numbers r)
  ∧ FnotchResolver.avg_image_id a = FnotchResolver.image_id r
  ∧ FnotchResolver.avg_obsid a = FnotchResolver.obsid r.
Proof.
  intros r df a. apply (merge_fnotch_table_keeps_single df r a).
  - reflexivity.
  - reflexivity.
  - vm_compute. apply list_elem_of_here.
  - reflexivity.
Defined.

(** ** More on joining ground coordinates *)

Section rounding.
Import GroundCoordinates.

Lemma rint_close (y : Q) :
  (inject_Z (rint y) - y <= 1 # 2)%Q ∧ (y - inject_Z (rint y) <= 1 # 2)%Q.
Proof.
  unfold rint.
  pose proof (Qfloor_le y) as Hlo. pose proof (Qlt_floor y) as Hhi.
  rewrite inject_Z_plus in Hhi. change (inject_Z 1) with 1%Q in Hhi.
  destruct (y - inject_Z (Qfloor y) ?= 1 # 2)%Q eqn:Hcmp.
  - apply Qeq_alt in Hcmp.
    destruct (Z.even (Qfloor y)); rewrite ?inject_Z_plus;
      change (inject_Z 1) with 1%Q; split; Lqa.lra.
  - apply Qlt_alt in Hcmp. split; Lqa.lra.
  - apply Qgt_alt in Hcmp. rewrite inject_Z_plus.
    change (inject_Z 1) with 1%Q. split; Lqa.lra.
Qed.

Lemma round_close (x : Q) :
  (round 7 x - x <= 5 # 100000000)%Q ∧ (x - round 7 x <= 5 # 100000000)%Q.
Proof.
  unfold round. change (inject_Z (10 ^ Z.of_nat 7)) with 10000000%Q.
  destruct (rint_close (x * 10000000)) as [Hup Hdown].
  set (n := inject_Z (rint (x * 10000000))) in *. clearbody n.
  assert (Hdiv : (n / 10000000 == n * (1 # 10000000))%Q) by (by field).
  rewrite Hdiv. split; Lqa.lra.
Qed.
End rounding.

Section join_more.
Import GroundCoordinates GroundKeys.

Lemma Qabs_diff_le (a b c e : Q) :
  (a == b)%Q → (b - c <= e)%Q → (c - b <= e)%Q → (Qabs (a - c) <= e)%Q.
Proof.
  intros Hab Hup Hdown. apply Qabs_Qle_condition. split; Lqa.lra.
Qed.

Lemma filter_all_false {A} (f : A → bool) (l : list A) :
  (∀ x, x ∈ l → f x = false) → List.filter f l = [].
Proof.
  induction l as [|x l IH]; intros Hf; [done|]. simpl.
  rewrite Hf by left. apply IH. intros y Hy. apply Hf. by right.
Qed.

Lemma same_key_twice c (g1 g2 : string * Q * Q * list Q) :
  same_key c g1 = true → same_key c g2 = true →
  g1.1.1.1 = g2.1.1.1 ∧ (g1.1.1.2 == g2.1.1.2)%Q ∧ (g1.1.2 == g2.1.2)%Q.
Proof.
  destruct g1 as [[[o1 x1] y1] c1], g2 as [[[o2 x2] y2] c2]. simpl.
  intros [[Ho1 Hx1]%andb_prop Hy1]%andb_prop [[Ho2 Hx2]%andb_prop Hy2]%andb_prop.
  apply bool_decide_eq_true_1 in Ho1, Ho2.
  apply Qeq_bool_iff in Hx1, Hx2, Hy1, Hy2.
  split_and!; [congruence| |].
  - by rewrite <- Hx1, <- Hx2.
  - by rewrite <- Hy1, <- Hy2.
Qed.

Lemma filter_same_key_le_1 c right :
  distinct_keys right → length (List.filter (same_key c) right) ≤ 1.
Proof.
  induction right as [|g right IH]; intros Hdistinct; [simpl; lia|].
  assert (Hrest : distinct_keys right).
  { intros i j gi gj Hi Hj Hij. apply (Hdistinct (S i) (S j)); [done..|lia]. }
  simpl. destruct (same_key c g) eqn:Hg; [|by apply IH].
  replace (List.filter (same_key c) right) with (@nil (string * Q * Q * list Q));
    [done|].
  symmetry. apply filter_all_false. intros g' Hg'.
  apply list_elem_of_lookup in Hg' as [j Hj].
  destruct (same_key c g') eqn:Hg''; [|done].
  destruct (Hdistinct 0 (S j) g g'); [done..|lia|].
  by apply (same_key_twice c).
Qed.

Lemma merge_sublist left right :
  distinct_keys right → fst <$> merge left right `sublist_of` left.
Proof.
  intros Hdistinct. unfold merge.
  induction left as [|c left IH]; [constructor|].
  rewrite bind_cons, fmap_app.
  pose proof (filter_same_key_le_1 c right Hdistinct) as Hle.
  destruct (List.filter (same_key c) right) as [|g [|g' rest]].
  - by constructor.
  - by constructor.
  - simpl in Hle. lia.
Qed.
End join_more.





(** ** More on fan geometry *)

Section rotation.
Import Markings.
Local Open Scope R_scope.

Lemma radians_plus (a b : R) : radians (a + b) = radians a + radians b.
Proof. unfold radians. ring. Qed.

Lemma norm_vscale_half (v : vector) :
  norm (0.5 * fst v, 0.5 * snd v) = 0.5 * norm v.
Proof.
  unfold norm. simpl.
  replace (0.5 * fst v * (0.5 * fst v) + 0.5 * snd v * (0.5 * snd v))
    with (0.5 * 0.5 * (fst v * fst v + snd v * snd v)) by ring.
  rewrite sqrt_mult_alt by lra. rewrite sqrt_square by lra. done.
Qed.
End rotation.

(** Rotations compose by adding their angles: turning a vector by [a]
    degrees and then by [b] degrees is turning it by [a + b] degrees.  In
    particular turning by [0] changes nothing and turning back by [-a]
    undoes a turn by [a]. *)
Theorem rotate_vector_compose (v : Markings.vector) (a b : R) :
  Markings.rotate_vector (Markings.rotate_vector v a) b
  = Markings.rotate_vector v (a + b)%R
  ∧ Markings.rotate_vector v 0%R = v
  ∧ Markings.rotate_vector (Markings.rotate_vector v a) (- a)%R = v.
Proof.
  assert (Hcompose : ∀ a b,
    Markings.rotate_vector (Markings.rotate_vector v a) b
    = Markings.rotate_vector v (a + b)%R).
  { intros a' b'. unfold Markings.rotate_vector. simpl.
    rewrite radians_plus, cos_plus, sin_plus. f_equal; ring. }
  assert (Hzero : Markings.rotate_vector v 0%R = v).
  { unfold Markings.rotate_vector, Markings.radians. simpl.
    rewrite Rmult_0_l, cos_0, sin_0. destruct v as [x y]. simpl.
    f_equal; ring. }
  split_and!; [apply Hcompose|exact Hzero|].
  rewrite Hcompose. replace (a + - a)%R with 0%R by ring. exact Hzero.
Qed.

(** For a spread between 0 and 180 degrees the divisor of the arm length is
    at least 1, so the division is defined; multiplying the arm length by
    it gives the distance back, and for a distance that is not negative the
    arm is not negative and at most as long as the distance. *)
Theorem get_arm_length_bounds (data : Markings.fan_row) :
  (0 <= Markings.spread data <= 180)%R →
  let half := Markings.radians (Markings.spread data / 2) in
  (1 <= cos half + sin half)%R
  ∧ (Markings.get_arm_length data * (cos half + sin half)
     = Markings.distance data)%R
  ∧ ((0 <= Markings.distance data)%R →
     (0 <= Markings.get_arm_length data <= Markings.distance data)%R).
Proof.
  intros Hspread half.
  assert (Hhalf : (0 <= half <= PI / 2)%R).
  { unfold half, Markings.radians. pose proof PI_RGT_0. split; nra. }
  assert (Hcos : (0 <= cos half)%R).
  { apply cos_ge_0; pose proof PI_RGT_0; lra. }
  assert (Hsin : (0 <= sin half)%R).
  { apply sin_ge_0; pose proof PI_RGT_0; lra. }
  pose proof (sin2_cos2 half) as Hunit. unfold Rsqr in Hunit.
  assert (Hden : (1 <= cos half + sin half)%R) by nra.
  unfold Markings.get_arm_length. fold half.
  split_and!; [done| |].
  - field. lra.
  - intros Hdist. split.
    + apply Rmult_le_pos; [done|]. left. apply Rinv_0_lt_compat. lra.
    + apply (Rmult_le_reg_r (cos half + sin half)); [lra|].
      unfold Rdiv. rewrite Rmult_assoc, Rinv_l by lra. nra.
Qed.

Lemma get_arm_length_bounds_witness :
  (1 <= cos (Markings.radians (0 / 2)) + sin (Markings.radians (0 / 2)))%R.
Proof.
  apply (get_arm_length_bounds (Markings.FanRow 0 0 0 0 10)).
  simpl. lra.
Defined.

(** The closing arc of a fan, whatever the three vectors [base], [v1] and
    [v2]: its centre is the midpoint of the two arm tips [base + v1] and
    [base + v2], and both tips lie on its circle. *)
Theorem add_semicircle_through_tips
    (arctan2 : R → R → R) (self : Markings.P4_Fan) :
  let arc := Semicircle.add_semicircle arctan2 self in
  let tip1 := Markings.vadd (Markings.base self) (Markings.v1 self) in
  let tip2 := Markings.vadd (Markings.base self) (Markings.v2 self) in
  Semicircle.center arc
  = (((fst tip1 + fst tip2) / 2)%R, ((snd tip1 + snd tip2) / 2)%R)
  ∧ Markings.norm (Semicircle.vsub tip1 (Semicircle.center arc))
    = Semicircle.radius arc
  ∧ Markings.norm (Semicircle.vsub tip2 (Semicircle.center arc))
    = Semicircle.radius arc.
Proof.
  cbv zeta. destruct self as [[bx by_] [x1 y1] [x2 y2] coords].
  unfold Semicircle.add_semicircle, Semicircle.vsub, Semicircle.vscale,
    Markings.vadd.
  cbn [Markings.base Markings.v1 Markings.v2 Semicircle.center
       Semicircle.radius fst snd].
  split_and!.
  - f_equal; lra.
  - rewrite <- (norm_vscale_half ((x1 - x2)%R, (y1 - y2)%R)).
    unfold Markings.norm. cbn [fst snd]. f_equal. lra.
  - rewrite <- (norm_vscale_half ((x1 - x2)%R, (y1 - y2)%R)).
    unfold Markings.norm. cbn [fst snd]. f_equal. lra.
Qed.

(** ** Image ids and result paths *)

Section image_ids.
Import IO.

Lemma string_length_app (s1 s2 : string) :
  String.length (s1 +:+ s2) = String.length s1 + String.length s2.
Proof. induction s1 as [|a s1 IH]; simpl; [done|by rewrite IH]. Qed.

Lemma string_length_0 (s : string) : String.length s = 0 → s = "".
Proof. by destruct s. Qed.

(** A short, non-empty id gets the first characters of the template in
    front, as many as it lacks. *)
Lemma check_and_pad_id_short imgid :
  0 < String.length imgid < 10 →
  ∃ pad, check_and_pad_id imgid = pad +:+ imgid
         ∧ String.prefix pad "APF0000000" = true
         ∧ String.length pad = 10 - String.length imgid.
Proof.
  intros Hlen. unfold check_and_pad_id.
  destruct (String.length imgid) as [|n] eqn:Hn; [lia|].
  do 9 (destruct n as [|n];
        [eexists; split; [reflexivity|by split]|]).
  simpl in Hlen. lia.
Qed.

Lemma check_and_pad_id_long imgid :
  10 ≤ String.length imgid → check_and_pad_id imgid = imgid.
Proof.
  intros Hlen. unfold check_and_pad_id.
  destruct (String.length imgid <? String.length "APF0000000") eqn:Hlt;
    [|done].
  apply Nat.ltb_lt in Hlt. simpl in Hlt. lia.
Qed.

Lemma before_underscore_app (s rest : string) :
  before_underscore (s +:+ "_" +:+ rest) = before_underscore s.
Proof.
  induction s as [|c s IH]; simpl; [done|].
  case_bool_decide; [done|]. by rewrite IH.
Qed.

Lemma before_underscore_id (s : string) :
  Forall (.≠ "_"%char) (String.list_ascii_of_string s) →
  before_underscore s = s.
Proof.
  induction s as [|c s IH]; simpl; [done|].
  intros [Hc Hs]%Forall_cons. rewrite bool_decide_eq_false_2 by done.
  by rewrite IH.
Qed.
End image_ids.

(** [check_and_pad_id] leaves the empty id empty (it is not padded), pads
    any other id shorter than ten characters to exactly ten characters by
    putting the beginning of [APF0000000] in front, and returns longer ids
    unchanged; padding twice is padding once. *)
Theorem check_and_pad_id_pads (imgid : string) :
  (imgid = "" → IO.check_and_pad_id imgid = "")
  ∧ (imgid ≠ "" →
     String.length (IO.check_and_pad_id imgid)
     = String.length imgid `max` 10
     ∧ ∃ pad, IO.check_and_pad_id imgid = pad +:+ imgid
              ∧ String.prefix pad "APF0000000" = true)
  ∧ IO.check_and_pad_id (IO.check_and_pad_id imgid)
    = IO.check_and_pad_id imgid.
Proof.
  split_and!.
  - by intros ->.
  - intros Hne.
    destruct (decide (String.length imgid < 10)) as [Hshort|Hlong].
    + destruct (check_and_pad_id_short imgid) as (pad & Heq & Hpre & Hlen).
      { split; [|done]. destruct imgid; [done|simpl; lia]. }
      split; [|by exists pad].
      rewrite Heq, string_length_app, Hlen. lia.
    + rewrite check_and_pad_id_long by lia. split; [lia|].
      by exists "".
  - destruct (decide (imgid = "")) as [->|Hne]; [done|].
    destruct (decide (String.length imgid < 10)) as [Hshort|Hlong].
    + destruct (check_and_pad_id_short imgid) as (pad & Heq & Hpre & Hlen).
      { split; [|done]. destruct imgid; [done|simpl; lia]. }
      apply check_and_pad_id_long.
      rewrite Heq, string_length_app, Hlen. lia.
    + rewrite (check_and_pad_id_long imgid) by lia.
      apply check_and_pad_id_long. lia.
Qed.

Lemma check_and_pad_id_pads_witness :
  String.length (IO.check_and_pad_id "x3t") = String.length "x3t" `max` 10
  ∧ ∃ pad, IO.check_and_pad_id "x3t" = pad +:+ "x3t"
           ∧ String.prefix pad "APF0000000" = true.
Proof.
  apply (check_and_pad_id_pads "x3t"). discriminate.
Defined.

(** The file name [get_path] builds starts with the padded image id, and
    [get_image_id_from_fname] reads it back up to the first underscore:
    applied to a path made by [get_path] it returns the padded id when
    that has no underscore, and in any case the part of it before its
    first underscore. *)
Theorem get_image_id_from_fname_get_path
    (self : IO.PathManager) (marking specific : string) :
  IO.get_image_id_from_fname (IO.get_path self marking specific)
  = IO.before_underscore (IO.id_ self)
  ∧ (Forall (.≠ "_"%char) (String.list_ascii_of_string (IO.id_ self)) →
     IO.get_image_id_from_fname (IO.get_path self marking specific)
     = IO.id_ self).
Proof.
  assert (Hfirst :
    IO.get_image_id_from_fname (IO.get_path self marking specific)
    = IO.before_underscore (IO.id_ self)).
  { unfold IO.get_image_id_from_fname, IO.get_path. cbv zeta.
    unfold IO.joinpath at 1.
    rewrite bool_decide_eq_false_2 by (by destruct (IO.id_ self)).
    unfold MarkingIds.name. rewrite last_last.
    apply before_underscore_app. }
  split; [done|]. intros Hid. rewrite Hfirst. by apply before_underscore_id.
Qed.

Lemma get_image_id_from_fname_get_path_witness :
  IO.get_image_id_from_fname
    (IO.get_path
       (IO.Build_PathManager "x3t" ["data"; "clustering"] "" "" ".csv")
       "fans" "applied_cut_0.5")
  = "APF0000x3t".
Proof.
  apply (get_image_id_from_fname_get_path
           (IO.Build_PathManager "x3t" ["data"; "clustering"] "" "" ".csv")
           "fans" "applied_cut_0.5").
  repeat constructor; discriminate.
Defined.

(** ** The latest database file *)

Section latest_file.
Import IO.
Context (date : list string → option Z).

Lemma get_latest_file_loop_spec fnames retval dtnow :
  Forall (λ f, is_Some (date f)) fnames →
  ∃ f d,
    get_latest_file_loop date fnames retval dtnow = inr f
    ∧ (dtnow ≤ d)%Z
    ∧ (∀ j f' d', fnames !! j = Some f' → date f' = Some d' → (d' ≤ d)%Z)
    ∧ ((f = retval ∧ d = dtnow)
       ∨ ∃ i, fnames !! i = Some f ∧ date f = Some d ∧ (dtnow < d)%Z
              ∧ ∀ j f' d', j < i → fnames !! j = Some f' →
                  date f' = Some d' → (d' < d)%Z).
Proof.
  intros Hdates. revert retval dtnow.
  induction Hdates as [|fname rest [dt Hdt] _ IH]; intros retval dtnow.
  - exists retval, dtnow. split_and!; [done|lia| |by left].
    intros j f' d' Hj. by rewrite lookup_nil in Hj.
  - simpl. rewrite Hdt. destruct (dtnow <? dt)%Z eqn:Hlt.
    + apply Z.ltb_lt in Hlt.
      destruct (IH fname dt) as (f & d & Hrun & Hge & Hmax & Hwhich).
      exists f, d. split_and!; [done|lia| |].
      * intros [|j] f' d' Hj Hd'.
        -- injection Hj as <-. rewrite Hdt in Hd'. injection Hd' as <-. lia.
        -- by eapply Hmax.
      * right. destruct Hwhich as [[-> ->]|(i & Hi & Hd & Hgt & Hbefore)].
        -- exists 0. split_and!; [done..|]. intros j f' d' Hj. lia.
        -- exists (S i). split_and!; [done..|lia|].
           intros [|j] f' d' Hj Hf' Hd'.
           ++ injection Hf' as <-. rewrite Hdt in Hd'. injection Hd' as <-.
              lia.
           ++ eapply Hbefore; [|done..]. lia.
    + apply Z.ltb_ge in Hlt.
      destruct (IH retval dtnow) as (f & d & Hrun & Hge & Hmax & Hwhich).
      exists f, d. split_and!; [done..| |].
      * intros [|j] f' d' Hj Hd'.
        -- injection Hj as <-. rewrite Hdt in Hd'. injection Hd' as <-. lia.
        -- by eapply Hmax.
      * destruct Hwhich as [?|(i & Hi & Hd & Hgt & Hbefore)]; [by left|].
        right. exists (S i). split_and!; [done..|].
        intros [|j] f' d' Hj Hf' Hd'.
        -- injection Hf' as <-. rewrite Hdt in Hd'. injection Hd' as <-. lia.
        -- eapply Hbefore; [|done..]. lia.
Qed.
End latest_file.

(** [get_latest_file] raises [NoFilesFoundError] on an empty list.  On a
    non-empty list of names that all start with a date it returns one of
    the names: no name of the list has a later date, and every name before
    it in the list has a strictly earlier one, so among the names with the
    latest date the first is returned. *)
Theorem get_latest_file_latest
    (date : list string → option Z) (filenames : list (list string)) :
  (filenames = [] →
   IO.get_latest_file date filenames = inl IO.NoFilesFoundError)
  ∧ (filenames ≠ [] → Forall (λ f, is_Some (date f)) filenames →
     ∃ i f d,
       IO.get_latest_file date filenames = inr f
       ∧ filenames !! i = Some f ∧ date f = Some d
       ∧ ∀ j f' d', filenames !! j = Some f' → date f' = Some d' →
           (d' ≤ d)%Z ∧ (j < i → (d' < d)%Z)).
Proof.
  split; [by intros ->|]. intros Hne Hdates.
  destruct filenames as [|first rest]; [done|].
  apply Forall_cons in Hdates as [[dt Hdt] Hdates].
  unfold IO.get_latest_file. rewrite Hdt.
  destruct (get_latest_file_loop_spec date rest first dt Hdates)
    as (f & d & Hrun & Hge & Hmax & Hwhich).
  destruct Hwhich as [[-> ->]|(i & Hi & Hd & Hgt & Hbefore)].
  - exists 0, first, dt. split_and!; [done..|].
    intros [|j] f' d' Hj Hd'.
    + injection Hj as <-. rewrite Hdt in Hd'. injection Hd' as <-.
      split; lia.
    + split; [by eapply Hmax|lia].
  - exists (S i), f, d. split_and!; [done..|].
    intros [|j] f' d' Hj Hd'.
    + injection Hj as <-. rewrite Hdt in Hd'. injection Hd' as <-.
      split; lia.
    + split; [by eapply Hmax|]. intros Hlt.
      eapply Hbefore; [|done..]. lia.
Qed.

Lemma get_latest_file_latest_witness :
  let date (f : list string) :=
    if bool_decide (f = ["2016-05-29_planet_four_queryable_cleaned.h5"])
    then Some 736113%Z else Some 735000%Z in
  ∃ i f d,
    IO.get_latest_file date
      [ ["2013-06-01_planet_four_queryable_cleaned.h5"];
        ["2016-05-29_planet_four_queryable_cleaned.h5"] ] = inr f
    ∧ [ ["2013-06-01_planet_four_queryable_cleaned.h5"];
        ["2016-05-29_planet_four_queryable_cleaned.h5"] ] !! i = Some f
    ∧ date f = Some d
    ∧ ∀ j f' d',
        [ ["2013-06-01_planet_four_queryable_cleaned.h5"];
          ["2016-05-29_planet_four_queryable_cleaned.h5"] ] !! j = Some f' →
        date f' = Some d' → (d' ≤ d)%Z ∧ (j < i → (d' < d)%Z).
Proof.
  intros date. apply (get_latest_file_latest date); [done|].
  repeat constructor; by eexists.
Defined.

(** ** HiRISE pixel coordinates *)

Section hirise.
Import GroundCoordinates HirisePixels.

Lemma Qfloor_unique (q : Q) (z : Z) :
  (inject_Z z <= q)%Q → (q < inject_Z (z + 1))%Q → Qfloor q = z.
Proof.
  intros Hlo Hhi.
  pose proof (Qfloor_le q) as Hlo'. pose proof (Qlt_floor q) as Hhi'.
  assert (H1 : (inject_Z z < inject_Z (Qfloor q + 1))%Q)
    by (eapply Qle_lt_trans; eauto).
  assert (H2 : (inject_Z (Qfloor q) < inject_Z (z + 1))%Q)
    by (eapply Qle_lt_trans; eauto).
  rewrite <- Zlt_Qlt in H1, H2. lia.
Qed.

Lemma Qfloor_plus_Z (q : Q) (n : Z) :
  Qfloor (q + inject_Z n) = (Qfloor q + n)%Z.
Proof.
  pose proof (Qfloor_le q) as Hlo. pose proof (Qlt_floor q) as Hhi.
  apply Qfloor_unique.
  - rewrite inject_Z_plus. Lqa.lra.
  - rewrite !inject_Z_plus in *. Lqa.lra.
Qed.

(** Shifting by an even integer shifts the rounded value by as much. *)
Lemma rint_plus_even (q : Q) (n : Z) :
  Z.even n = true → rint (q + inject_Z n) = (rint q + n)%Z.
Proof.
  intros Heven. unfold rint. rewrite Qfloor_plus_Z.
  assert (Hfrac : (q + inject_Z n - inject_Z (Qfloor q + n)
                   == q - inject_Z (Qfloor q))%Q)
    by (rewrite inject_Z_plus; ring).
  rewrite Hfrac. rewrite Z.even_add, Heven.
  destruct (q - inject_Z (Qfloor q) ?= 1 # 2)%Q; [|done|lia].
  destruct (Z.even (Qfloor q)); simpl; lia.
Qed.
End hirise.

Section hirise_rows.
Import GroundCoordinates HirisePixels.

Lemma rint_comp (q q' : Q) : (q == q')%Q → rint q = rint q'.
Proof.
  intros Heq. unfold rint. rewrite <- (Qfloor_comp _ _ Heq).
  assert (Hfrac : (q - inject_Z (Qfloor q) == q' - inject_Z (Qfloor q))%Q)
    by Lqa.lra.
  by rewrite Hfrac.
Qed.

Lemma round0_next (v : Q) (step t : Z) :
  Z.even step = true →
  (round0 (v + inject_Z step * inject_Z (t + 1 - 1))
   == round0 (v + inject_Z step * inject_Z (t - 1)) + inject_Z step)%Q.
Proof.
  intros Heven. unfold round0.
  rewrite <- inject_Z_plus, <- (rint_plus_even _ step Heven).
  apply inject_Z_injective, rint_comp.
  replace (t + 1 - 1)%Z with (t - 1 + 1)%Z by lia.
  rewrite inject_Z_plus. change (inject_Z 1) with 1%Q. ring.
Qed.
End hirise_rows.


(** ** Repeated classifications *)

Section duplicates.
Import Duplicates.
Implicit Types (g data : list classification) (r : classification).

Lemma elem_of_first_seen seen keys k :
  k ∈ first_seen seen keys ↔ k ∈ keys ∧ k ∉ seen.
Proof.
  revert seen. induction keys as [|k' keys IH]; intros seen; simpl.
  - split; [by intros ?%not_elem_of_nil|by intros [?%not_elem_of_nil _]].
  - case_bool_decide as Hseen.
    + rewrite IH, elem_of_cons. split.
      * intros [? ?]. split; [by right|done].
      * intros [[->|?] ?]; [done|by split].
    + rewrite !elem_of_cons, IH, !elem_of_cons. split.
      * intros [->|[? Hnot]]; [split; [by left|done]|].
        split; [by right|]. intros ?. apply Hnot. by right.
      * intros [[->|Hk] Hnot]; [by left|].
        destruct (decide (k = k')) as [->|Hne]; [by left|].
        right. split; [done|]. by intros [?|?].
Qed.

Lemma foldr_Zmin_spec (t : Z) (ts : list Z) :
  foldr Z.min t ts ∈ t :: ts ∧ ∀ u, u ∈ t :: ts → (foldr Z.min t ts ≤ u)%Z.
Proof.
  induction ts as [|a ts [IHin IHle]]; simpl.
  - split; [by left|]. intros u ->%list_elem_of_singleton. lia.
  - split.
    + destruct (Z.min_spec a (foldr Z.min t ts)) as [[_ ->]|[_ ->]].
      * right. by left.
      * apply elem_of_cons in IHin as [->|?]; [by left|]. right. by right.
    + intros u [->|[->|Hu]%elem_of_cons]%elem_of_cons.
      * specialize (IHle t ltac:(by left)). lia.
      * lia.
      * specialize (IHle u ltac:(by right)). lia.
Qed.

Lemma foldr_min_string_elem (c : string) (cs : list string) :
  foldr min_string c cs ∈ c :: cs.
Proof.
  induction cs as [|a cs IH]; simpl; [by left|].
  unfold min_string at 1. case_bool_decide.
  - right. by left.
  - apply elem_of_cons in IH as [->|?]; [by left|]. right. by right.
Qed.

(** A non-empty group keeps the rows of one classification, which holds a
    row created no later than any row of the group. *)
Lemma process_user_group_spec g :
  g ≠ [] →
  ∃ r0, r0 ∈ g
    ∧ (∀ r, r ∈ g → (created_at r0 ≤ created_at r)%Z)
    ∧ process_user_group g
      = filter (λ r, classification_id r = classification_id r0) g.
Proof.
  intros Hne. unfold process_user_group.
  destruct g as [|r1 g']; [done|]. rewrite fmap_cons.
  set (g := r1 :: g'). cbv zeta.
  destruct (foldr_Zmin_spec (created_at r1) (created_at <$> g'))
    as [Hin Hle].
  set (tmin := foldr Z.min (created_at r1) (created_at <$> g')) in *.
  change (created_at r1 :: (created_at <$> g')) with (created_at <$> g)
    in Hin, Hle.
  apply list_elem_of_fmap in Hin as (rmin & Hrmin & Hrmin_in).
  assert (Hearly : rmin ∈ filter (λ r, created_at r = tmin) g)
    by (by apply list_elem_of_filter).
  destruct (classification_id <$> filter (λ r, created_at r = tmin) g)
    as [|c cs] eqn:Hids.
  { apply (list_elem_of_fmap_2 classification_id) in Hearly.
    rewrite Hids in Hearly. by apply not_elem_of_nil in Hearly. }
  pose proof (foldr_min_string_elem c cs) as Hc. rewrite <- Hids in Hc.
  apply list_elem_of_fmap in Hc as (r0 & Hr0 & [Ht Hr0_in]%list_elem_of_filter).
  exists r0. split_and!; [done| |by rewrite Hr0].
  intros r Hr. rewrite Ht. apply Hle. by apply list_elem_of_fmap_2.
Qed.

Lemma elem_of_remove_duplicates data r :
  r ∈ remove_duplicates_from_image_name_data data
  ↔ r ∈ process_user_group (filter (λ r', key r' = key r) data).
Proof.
  unfold remove_duplicates_from_image_name_data.
  rewrite list_elem_of_bind. split.
  - intros (k & Hr & Hk).
    destruct (decide (filter (λ r', key r' = k) data = [])) as [Hnil|Hne].
    { rewrite Hnil in Hr. by apply not_elem_of_nil in Hr. }
    destruct (process_user_group_spec _ Hne) as (r0 & _ & _ & Heq).
    pose proof Hr as Hr'. rewrite Heq in Hr'.
    apply list_elem_of_filter in Hr' as [_ [<- _]%list_elem_of_filter].
    done.
  - intros Hr. exists (key r). split; [done|].
    apply elem_of_first_seen. split; [|apply not_elem_of_nil].
    destruct (decide (filter (λ r', key r' = key r) data = [])) as [Hnil|Hne].
    { rewrite Hnil in Hr. by apply not_elem_of_nil in Hr. }
    destruct (process_user_group_spec _ Hne) as (r0 & Hr0 & _ & _).
    apply list_elem_of_filter in Hr0 as [<- Hr0]. by apply list_elem_of_fmap_2.
Qed.
End duplicates.

(** [remove_duplicates_from_image_name_data] only drops rows; afterwards
    every pair of image and user has the rows of exactly one
    classification: rows of the result with the same image and user have
    the same [classification_id], and all input rows of that classification
    for the pair are kept.  No pair is lost, and the classification kept is
    an earliest one: for every input row the result holds a row of the same
    image and user that was created no later. *)
Theorem remove_duplicates_keeps_first_classification
    (data : list Duplicates.classification) :
  let out := Duplicates.remove_duplicates_from_image_name_data data in
  (∀ r, r ∈ out → r ∈ data)
  ∧ (∀ r1 r2, r1 ∈ out → r2 ∈ out → Duplicates.key r1 = Duplicates.key r2 →
       Duplicates.classification_id r1 = Duplicates.classification_id r2)
  ∧ (∀ r1 r, r1 ∈ out → r ∈ data → Duplicates.key r = Duplicates.key r1 →
       Duplicates.classification_id r = Duplicates.classification_id r1 →
       r ∈ out)
  ∧ (∀ r, r ∈ data →
       ∃ r0, r0 ∈ out ∧ Duplicates.key r0 = Duplicates.key r
             ∧ (Duplicates.created_at r0 ≤ Duplicates.created_at r)%Z).
Proof.
  cbv zeta.
  assert (Hgroup : ∀ r,
    r ∈ Duplicates.remove_duplicates_from_image_name_data data →
    ∃ r0,
      r0 ∈ data ∧ Duplicates.key r0 = Duplicates.key r
      ∧ Duplicates.classification_id r = Duplicates.classification_id r0
      ∧ r ∈ data
      ∧ Duplicates.process_user_group
          (filter (λ r', Duplicates.key r' = Duplicates.key r) data)
        = filter
            (λ r', Duplicates.classification_id r'
                   = Duplicates.classification_id r0)
            (filter (λ r', Duplicates.key r' = Duplicates.key r) data)).
  { intros r Hr%elem_of_remove_duplicates.
    destruct (decide (filter (λ r', Duplicates.key r' = Duplicates.key r) data
                      = [])) as [Hnil|Hne].
    { rewrite Hnil in Hr. by apply not_elem_of_nil in Hr. }
    destruct (process_user_group_spec _ Hne) as (r0 & Hr0 & _ & Heq).
    rewrite Heq in Hr.
    apply list_elem_of_filter in Hr as [Hid [_ Hin]%list_elem_of_filter].
    apply list_elem_of_filter in Hr0 as [Hkey Hr0].
    exists r0. by split_and!. }
  split_and!.
  - intros r Hr. by destruct (Hgroup r Hr) as (_ & _ & _ & _ & ? & _).
  - intros r1 r2 Hr1 Hr2 Hkey.
    destruct (Hgroup r1 Hr1) as (r0 & _ & _ & Hid1 & _ & Heq).
    apply elem_of_remove_duplicates in Hr2. rewrite <- Hkey, Heq in Hr2.
    apply list_elem_of_filter in Hr2 as [Hid2 _]. congruence.
  - intros r1 r Hr1 Hr Hkey Hid.
    destruct (Hgroup r1 Hr1) as (r0 & _ & _ & Hid1 & _ & Heq).
    apply elem_of_remove_duplicates. rewrite Hkey, Heq.
    apply list_elem_of_filter. split; [congruence|].
    by apply list_elem_of_filter.
  - intros r Hr.
    assert (Hne : filter (λ r', Duplicates.key r' = Duplicates.key r) data
                  ≠ []).
    { intros Hnil.
      assert (Hin : r ∈ filter (λ r', Duplicates.key r' = Duplicates.key r)
                          data) by (by apply list_elem_of_filter).
      rewrite Hnil in Hin. by apply not_elem_of_nil in Hin. }
    destruct (process_user_group_spec _ Hne) as (r0 & Hr0 & Hmin & Heq).
    pose proof Hr0 as [Hkey Hr0_data]%list_elem_of_filter.
    exists r0. split_and!; [|done|].
    + apply elem_of_remove_duplicates. rewrite Hkey, Heq.
      by apply list_elem_of_filter.
    + apply Hmin. by apply list_elem_of_filter.
Qed.

Lemma remove_duplicates_keeps_first_classification_witness :
  ∃ r0,
    r0 ∈ Duplicates.remove_duplicates_from_image_name_data
           Duplicates.sample_data
    ∧ Duplicates.key r0 = ("APF0000x3t", "anna")
    ∧ (Duplicates.created_at r0 ≤ 200)%Z.
Proof.
  destruct (remove_duplicates_keeps_first_classification
              Duplicates.sample_data) as (_ & _ & _ & Hkept).
  apply (Hkept
           (Duplicates.Classification "c2" 200 "APF0000x3t" "anna" ["fan"])).
  apply list_elem_of_here.
Defined.

(** ** Removing incomplete and default markings *)

Section cleaning.
Import Cleaning.

Lemma filter_filter {A} (f g : A → bool) (l : list A) :
  List.filter f (List.filter g l) = List.filter (λ a, g a && f a) l.
Proof.
  induction l as [|a l IH]; [done|]. simpl.
  destruct (g a); simpl; [|done]. destruct (f a); by rewrite IH.
Qed.

Lemma filter_ext_all {A} (f g : A → bool) (l : list A) :
  (∀ a, f a = g a) → List.filter f l = List.filter g l.
Proof. intros Hfg. apply List.filter_ext. done. Qed.

Lemma filter_never {A} (f : A → bool) (l : list A) :
  (∀ a, f a = false) → List.filter f l = [].
Proof. intros Hf. apply filter_all_false. auto. Qed.

(** The result, kind by kind: the good fans, then the good blotches, then
    the good rows of other kinds, then the rows without marking. *)
Lemma filter_data_by_kind (df : list raw_row) :
  filter_data df
  = List.filter good_fan df ++ List.filter good_blotch df
    ++ List.filter good_other df ++ List.filter good_none df.
Proof.
  unfold filter_data. cbv zeta.
  rewrite !List.filter_app, !filter_filter, <- !app_assoc.
  match goal with
  | |- _ ++ _ ++ _ ++ List.filter ?f4 df ++ List.filter ?f5 df ++ _ = _ =>
      assert (H4 : ∀ a, f4 a = false);
      [|assert (H5 : ∀ a, f5 a = false);
        [|rewrite (filter_never f4 df H4), (filter_never f5 df H5)]]
  end.
  - intros r. cbv beta. case_bool_decide as Hfan; [|done].
    rewrite (bool_decide_eq_false_2 (marking r = "none")) by congruence.
    by rewrite !andb_false_r.
  - intros r. cbv beta. case_bool_decide as Hblotch; [|done].
    rewrite (bool_decide_eq_false_2 (marking r = "none")) by congruence.
    by rewrite !andb_false_r.
  - simpl. f_equal; [|f_equal; [|f_equal]]; apply filter_ext_all; intros r;
      unfold good_fan, good_blotch, good_other, good_none, at_origin,
        fan_defaults, blotch_defaults, in_frame, eps.
    + case_bool_decide as Hfan; [|done].
      rewrite (bool_decide_eq_true_2 (marking r ≠ "none")) by congruence.
      simpl. by rewrite !andb_assoc.
    + case_bool_decide as Hblotch; [|done].
      rewrite (bool_decide_eq_true_2 (marking r ≠ "none")) by congruence.
      simpl. by rewrite !andb_assoc.
    + destruct (bool_decide (marking r ≠ "fan")),
        (bool_decide (marking r ≠ "blotch")),
        (bool_decide (marking r ≠ "none")); simpl;
        rewrite ?andb_false_r, ?andb_true_r, ?andb_assoc; done.
    + destruct (decide (marking r = "none")) as [Hnone|Hnone].
      * rewrite (bool_decide_eq_true_2 (marking r ≠ "fan")) by congruence.
        rewrite (bool_decide_eq_true_2 (marking r ≠ "blotch"))
          by congruence.
        rewrite (bool_decide_eq_true_2 (marking r = "none")) by done.
        simpl. by rewrite andb_true_r.
      * rewrite (bool_decide_eq_false_2 (marking r = "none")) by done.
        by rewrite !andb_false_r.
Qed.
End cleaning.

Section cleaning_more.
Import Cleaning.

Lemma lt_true (a : option Q) (b : Q) :
  lt a b = true → ∃ v, a = Some v ∧ (v < b)%Q.
Proof.
  destruct a as [v|]; [|done]. simpl. intros Hlt%negb_true_iff.
  exists v. split; [done|]. apply Qnot_le_lt. intros Hle%Qle_bool_iff.
  congruence.
Qed.

Lemma gt_true (a : option Q) (b : Q) :
  gt a b = true → ∃ v, a = Some v ∧ (b < v)%Q.
Proof.
  destruct a as [v|]; [|done]. simpl. intros Hlt%negb_true_iff.
  exists v. split; [done|]. apply Qnot_le_lt. intros Hle%Qle_bool_iff.
  congruence.
Qed.

Lemma in_frame_true (r : raw_row) :
  in_frame r = true →
  ∃ vx vy, x r = Some vx ∧ y r = Some vy
    ∧ (- 25 < vx)%Q ∧ (vx < 865)%Q ∧ (- 25 < vy)%Q ∧ (vy < 673)%Q.
Proof.
  unfold in_frame.
  intros [[[(vx & Hx & ?)%gt_true (vx' & Hx' & ?)%lt_true]%andb_prop
             (vy & Hy & ?)%gt_true]%andb_prop
            (vy' & Hy' & ?)%lt_true]%andb_prop.
  rewrite Hx in Hx'. rewrite Hy in Hy'.
  injection Hx' as <-. injection Hy' as <-.
  exists vx, vy. unfold img_x_size, img_y_size in *.
  split_and!; [done..| | |]; Lqa.lra.
Qed.

Lemma notna_true cols (r : raw_row) :
  notna cols r = true → Forall (λ col, is_Some (col r)) cols.
Proof.
  unfold notna. intros Hall. apply Forall_forall. intros col Hcol.
  rewrite forallb_forall in Hall.
  specialize (Hall col ltac:(by apply list_elem_of_In)).
  by apply bool_decide_eq_true_1 in Hall.
Qed.

Lemma elem_of_filter_data (df : list raw_row) (r : raw_row) :
  r ∈ filter_data df
  ↔ r ∈ df ∧ (good_fan r = true ∨ good_blotch r = true
              ∨ good_other r = true ∨ good_none r = true).
Proof.
  rewrite filter_data_by_kind, !elem_of_app, !list_elem_of_In, !filter_In.
  tauto.
Qed.
End cleaning_more.

(** What [filter_data] lets through.  Every row of the result is a row of
    the input; a fan has all of [x y image_x image_y distance angle
    spread], a blotch all of [x y image_x image_y radius_1 radius_2]; every
    row with a marking other than [none] has a position with
    [-25 < x < 865] and [-25 < y < 673].  A [none] row of the input
    without an [x] is always in the result. *)
Theorem filter_data_lets_through
    (df : list Cleaning.raw_row) (r : Cleaning.raw_row) :
  (r ∈ Cleaning.filter_data df →
   r ∈ df
   ∧ (Cleaning.marking r = "fan" →
      Forall (λ col, is_Some (col r)) Cleaning.fan_data_cols)
   ∧ (Cleaning.marking r = "blotch" →
      Forall (λ col, is_Some (col r)) Cleaning.blotch_data_cols)
   ∧ (Cleaning.marking r ≠ "none" →
      ∃ vx vy, Cleaning.x r = Some vx ∧ Cleaning.y r = Some vy
        ∧ (- 25 < vx)%Q ∧ (vx < 865)%Q ∧ (- 25 < vy)%Q ∧ (vy < 673)%Q))
  ∧ (r ∈ df → Cleaning.marking r = "none" → Cleaning.x r = None →
     r ∈ Cleaning.filter_data df).
Proof.
  split.
  - intros [Hr Hgood]%elem_of_filter_data. split; [done|].
    unfold Cleaning.good_fan, Cleaning.good_blotch, Cleaning.good_other,
      Cleaning.good_none in Hgood.
    destruct Hgood as [Hgood|[Hgood|[Hgood|Hgood]]];
      repeat (apply andb_prop in Hgood as [Hgood ?]);
      repeat match goal with
             | H : bool_decide _ = true |- _ => apply bool_decide_eq_true_1 in H
             end;
      try apply bool_decide_eq_true_1 in Hgood;
      (split_and!; [intros ?|intros ?|intros ?]);
      try congruence; try done;
      try (by apply notna_true); by apply in_frame_true.
  - intros Hr Hnone Hx. apply elem_of_filter_data. split; [done|].
    do 3 right. unfold Cleaning.good_none, Cleaning.at_origin.
    by rewrite Hx, bool_decide_eq_true_2.
Qed.

Lemma filter_data_lets_through_witness :
  ∃ vx vy,
    Some 100.5%Q = Some vx ∧ Some 200%Q = Some vy
    ∧ (- 25 < vx)%Q ∧ (vx < 865)%Q ∧ (- 25 < vy)%Q ∧ (vy < 673)%Q.
Proof.
  destruct (filter_data_lets_through Cleaning.sample_rows
              (Cleaning.RawRow "fan" (Some 100.5%Q) (Some 200%Q)
                 (Some 840.5%Q) (Some 748%Q) None None (Some 55%Q)
                 (Some 170.2%Q) (Some 20%Q) ["c1"])) as [Hout _].
  destruct Hout as (_ & _ & _ & Hframe).
  - vm_compute. apply list_elem_of_here.
  - apply Hframe. discriminate.
Defined.

Section cleaning_twice.
Import Cleaning.

Lemma filter_filter_same {A} (f : A → bool) (l : list A) :
  List.filter f (List.filter f l) = List.filter f l.
Proof.
  rewrite filter_filter. apply filter_ext_all. intros a. by destruct (f a).
Qed.

Lemma filter_filter_disjoint {A} (f g : A → bool) (l : list A) :
  (∀ a, g a = true → f a = false) →
  List.filter f (List.filter g l) = [].
Proof.
  intros Hgf. rewrite filter_filter. apply filter_never. intros a.
  destruct (g a) eqn:Hg; [|done]. by rewrite (Hgf a Hg).
Qed.

(** The four kinds exclude one another. *)
Lemma good_kinds (r : raw_row) :
  (good_fan r = true → marking r = "fan")
  ∧ (good_blotch r = true → marking r = "blotch")
  ∧ (good_other r = true →
     marking r ≠ "fan" ∧ marking r ≠ "blotch" ∧ marking r ≠ "none")
  ∧ (good_none r = true → marking r = "none").
Proof.
  unfold good_fan, good_blotch, good_other, good_none. split_and!.
  - intros [[[?%bool_decide_eq_true_1 _]%andb_prop _]%andb_prop _]%andb_prop.
    done.
  - intros [[[?%bool_decide_eq_true_1 _]%andb_prop _]%andb_prop _]%andb_prop.
    done.
  - intros [[[[?%bool_decide_eq_true_1 ?%bool_decide_eq_true_1]%andb_prop
               ?%bool_decide_eq_true_1]%andb_prop _]%andb_prop _]%andb_prop.
    done.
  - intros [?%bool_decide_eq_true_1 _]%andb_prop. done.
Qed.

Lemma good_disjoint (r : raw_row) :
  (good_fan r = true → good_blotch r = false ∧ good_other r = false
                       ∧ good_none r = false)
  ∧ (good_blotch r = true → good_fan r = false ∧ good_other r = false
                            ∧ good_none r = false)
  ∧ (good_other r = true → good_fan r = false ∧ good_blotch r = false
                           ∧ good_none r = false)
  ∧ (good_none r = true → good_fan r = false ∧ good_blotch r = false
                          ∧ good_other r = false).
Proof.
  destruct (good_kinds r) as (Hfan & Hblotch & Hother & Hnone).
  split_and!; intros Hgood; split_and!;
    match goal with
    | |- ?g r = false =>
        destruct (g r) eqn:Hg; [exfalso|done]
    end;
    repeat match goal with
           | H : ?g r = true, Hk : ?g r = true → _ |- _ => specialize (Hk H)
           | Hk : true = true → _ |- _ => specialize (Hk eq_refl)
           end;
    destruct_and?; congruence.
Qed.
End cleaning_twice.

(** [filter_data] regroups and is stable: its result lists the fans first,
    then the blotches, then the rows of the other kinds, then the rows
    without marking; and filtering a filtered table again changes
    nothing. *)
Theorem filter_data_idempotent (df : list Cleaning.raw_row) :
  (∃ fans blotches others none,
     Cleaning.filter_data df = fans ++ blotches ++ others ++ none
     ∧ Forall (λ r, Cleaning.marking r = "fan") fans
     ∧ Forall (λ r, Cleaning.marking r = "blotch") blotches
     ∧ Forall (λ r, Cleaning.marking r ≠ "fan"
                    ∧ Cleaning.marking r ≠ "blotch"
                    ∧ Cleaning.marking r ≠ "none") others
     ∧ Forall (λ r, Cleaning.marking r = "none") none)
  ∧ Cleaning.filter_data (Cleaning.filter_data df) = Cleaning.filter_data df.
Proof.
  split.
  - eexists _, _, _, _. split; [apply filter_data_by_kind|].
    split_and!;
      apply Forall_forall; intros r [_ Hgood]%list_elem_of_In%filter_In;
      by apply good_kinds.
  - rewrite (filter_data_by_kind (Cleaning.filter_data df)).
    rewrite (filter_data_by_kind df).
    rewrite !List.filter_app, !filter_filter_same.
    rewrite !filter_filter_disjoint;
      [simpl; by rewrite ?app_nil_r| ..];
      intros r Hgood; destruct (good_disjoint r) as (H1 & H2 & H3 & H4);
      first [ by destruct (H1 Hgood) as (? & ? & ?)
            | by destruct (H2 Hgood) as (? & ? & ?)
            | by destruct (H3 Hgood) as (? & ? & ?)
            | by destruct (H4 Hgood) as (? & ? & ?) ].
Qed.

(** ** The order of the identifiers *)

Section identifier_order.
Import IdentifierAllocator Hex.

(** Looking up in the concatenation of blocks of the same length. *)
Lemma lookup_bind_blocks {A B} (f : A → list B) (m : nat) (l : list A) i :
  0 < m → (∀ a, length (f a) = m) →
  (l ≫= f) !! i = l !! (i / m) ≫= λ a, f a !! (i mod m).
Proof.
  intros Hm Hlen. revert i. induction l as [|a l IH]; intros i; [done|].
  rewrite bind_cons. destruct (decide (i < m)) as [Hi|Hi].
  - rewrite lookup_app_l by (by rewrite Hlen).
    by rewrite Nat.div_small, Nat.mod_small.
  - rewrite lookup_app_r by (rewrite Hlen; lia). rewrite Hlen, IH.
    assert (Hdiv : i / m = S ((i - m) / m)).
    { transitivity ((i - m + 1 * m) / m); [f_equal; lia|].
      rewrite Nat.div_add by lia. lia. }
    assert (Hmod : i mod m = (i - m) mod m).
    { transitivity ((i - m + 1 * m) mod m); [f_equal; lia|].
      by rewrite Nat.Div0.mod_add. }
    by rewrite Hdiv, Hmod.
Qed.

Lemma product_lookup (k n : nat) :
  n < 16 ^ k → product pool k !! n = Some (digit_char <$> to_digits k n).
Proof.
  revert n. induction k as [|k IH]; intros n Hn.
  - rewrite Nat.pow_0_r in Hn. by replace n with 0 by lia.
  - change (product pool (S k))
      with (product pool k ≫= λ x, (λ y, x ++ [y]) <$> pool).
    rewrite (lookup_bind_blocks _ 16); [|lia|by intros a; rewrite length_fmap].
    rewrite Nat.pow_succ_r' in Hn.
    rewrite IH by (apply Nat.Div0.div_lt_upper_bound; lia).
    cbn [mbind option_bind]. rewrite list_lookup_fmap.
    pose proof (Nat.mod_upper_bound n 16 ltac:(lia)) as Hmod.
    change (to_digits (S k) n) with (to_digits k (n / 16) ++ [n mod 16]).
    rewrite fmap_app.
    destruct (lookup_lt_is_Some_2 pool (n mod 16) Hmod) as [c Hc].
    rewrite Hc. apply nth_lookup_Some with (d := "0"%char) in Hc.
    change (digit_char <$> [n mod 16])
      with [nth (n mod 16) pool "0"%char].
    by rewrite Hc.
Qed.
End identifier_order.

(** The generators count in hexadecimal: the [n]-th identifier drawn from a
    fresh fan (blotch) generator, counting from 0, is [F] ([B]) followed by
    [n] written with six lower-case hexadecimal digits. *)
Theorem nth_marking_id (n : nat) :
  (N.of_nat n < IdentifierAllocator.address_space)%N →
  IdentifierAllocator.fan_id_generator !! n
  = Some (String "F" (Hex.hex6 n))
  ∧ IdentifierAllocator.blotch_id_generator !! n
    = Some (String "B" (Hex.hex6 n)).
Proof.
  intros Hn.
  assert (Hlt : n < 16 ^ 6).
  { assert (Hp : N.of_nat (16 ^ 6) = IdentifierAllocator.address_space)
      by (rewrite Nat2N.inj_pow; reflexivity).
    remember (16 ^ 6) as p. lia. }
  unfold IdentifierAllocator.fan_id_generator,
    IdentifierAllocator.blotch_id_generator, IdentifierAllocator.id_generator.
  rewrite !list_lookup_fmap, (product_lookup 6 n Hlt). done.
Qed.

Lemma nth_marking_id_witness :
  IdentifierAllocator.fan_id_generator !! 2748 = Some "F000abc"
  ∧ IdentifierAllocator.blotch_id_generator !! 2748 = Some "B000abc".
Proof.
  apply (nth_marking_id 2748). reflexivity.
Defined.

(** ** Collecting the result files *)

Section roi_files.
Import RoiFiles.

Lemma foldl_add_file (b : bucket) (files : folder) :
  foldl add_file b files
  = Bucket
      (fan b ++ (List.filter
                   (λ e, ReleaseManager.endswith e.1 "fans.csv") files).*2)
      (blotch b ++ (List.filter
                      (λ e, negb (ReleaseManager.endswith e.1 "fans.csv"))
                      files).*2).
Proof.
  revert b. induction files as [|[name content] files IH]; intros b.
  - simpl. rewrite !app_nil_r. by destruct b.
  - simpl. rewrite IH. unfold add_file.
    destruct (ReleaseManager.endswith name "fans.csv"); simpl;
      by rewrite <- app_assoc.
Qed.

Lemma read_csvfiles_from (b : bucket) (folders : list folder) :
  foldl (λ b f, foldl add_file b (glob_csv f)) b folders
  = Bucket
      (fan b ++ (List.filter
                   (λ e, ReleaseManager.endswith e.1 "fans.csv")
                   (folders ≫= glob_csv)).*2)
      (blotch b ++ (List.filter
                      (λ e, negb (ReleaseManager.endswith e.1 "fans.csv"))
                      (folders ≫= glob_csv)).*2).
Proof.
  revert b. induction folders as [|f folders IH]; intros b.
  - simpl. rewrite !app_nil_r. by destruct b.
  - rewrite bind_cons, !List.filter_app, !fmap_app.
    change (foldl (λ b f, foldl add_file b (glob_csv f)) b (f :: folders))
      with (foldl (λ b f, foldl add_file b (glob_csv f))
              (foldl add_file b (glob_csv f)) folders).
    rewrite IH, foldl_add_file. cbn [fan blotch].
    by rewrite <- !app_assoc.
Qed.
End roi_files.

(** [read_csvfiles_into_lists_of_frames] reads exactly the entries whose
    name ends in [.csv], each once and in the order of the folders and of
    their listings: those whose name ends in [fans.csv] make up the [fan]
    list, all the others, whatever their name, the [blotch] list. *)
Theorem read_csvfiles_sorts_by_name (folders : list RoiFiles.folder) :
  let csv := folders ≫= RoiFiles.glob_csv in
  let b := RoiFiles.read_csvfiles_into_lists_of_frames folders in
  RoiFiles.fan b
  = (List.filter (λ e, ReleaseManager.endswith e.1 "fans.csv") csv).*2
  ∧ RoiFiles.blotch b
    = (List.filter (λ e, negb (ReleaseManager.endswith e.1 "fans.csv"))
         csv).*2
  ∧ RoiFiles.fan b ++ RoiFiles.blotch b ≡ₚ csv.*2
  ∧ Forall (λ e, ReleaseManager.endswith e.1 ".csv" = true) csv.
Proof.
  cbv zeta. unfold RoiFiles.read_csvfiles_into_lists_of_frames.
  rewrite read_csvfiles_from. simpl. split_and!; [done..| |].
  - induction (folders ≫= RoiFiles.glob_csv) as [|[name content] l IH];
      [done|].
    simpl. destruct (ReleaseManager.endswith name "fans.csv"); simpl.
    + by rewrite IH.
    + rewrite <- IH. by rewrite <- Permutation_middle.
  - apply Forall_forall. intros e (f & He & _)%list_elem_of_bind.
    unfold RoiFiles.glob_csv in He.
    by apply list_elem_of_In, filter_In in He as [_ ?].
Qed.

(** ** Catalog source files that exist *)

(** The lookup of a candidate table never raises.  It returns a path, and
    prints nothing, exactly when some entry of the catalog folder ends with
    the kind's suffix; the path is then the first such entry of the
    listing, inside the catalog folder. *)
Theorem catalog_file_first_match
    (suffix : string) (savefolder listing : list string) :
  let matching :=
    List.filter (λ name, ReleaseManager.endswith name suffix) listing in
  match ReleaseManager.catalog_file suffix savefolder listing with
  | (Raised _, _) => False
  | (Returned None, printed) => matching = [] ∧ length printed = 1
  | (Returned (Some found), printed) =>
      printed = []
      ∧ ∃ name skipped rest,
          found = savefolder ++ [name]
          ∧ listing = skipped ++ name :: rest
          ∧ ReleaseManager.endswith name suffix = true
          ∧ Forall (λ other, ReleaseManager.endswith other suffix = false)
              skipped
  end.
Proof.
  cbv zeta. unfold ReleaseManager.catalog_file, ReleaseManager.glob.
  induction listing as [|entry listing IH]; [done|]. simpl.
  destruct (ReleaseManager.endswith entry suffix) eqn:Hentry.
  - simpl. split; [done|]. exists entry, [], listing. by split_and!.
  - destruct (List.filter (λ name, ReleaseManager.endswith name suffix)
                listing) as [|name matching]; [done|].
    simpl in *. destruct IH as (_ & name' & skipped & rest & Hfound & -> & ? & ?).
    split; [done|]. exists name', (entry :: skipped), rest.
    split_and!; [done..|]. by constructor.
Qed.

(** ** Normalising angles twice *)

Section angles_twice.
Import Reduction.

Lemma pymod_small (r m : Q) :
  (0 <= r)%Q → (r < m)%Q → (pymod r m == r)%Q.
Proof.
  intros Hlo Hhi. assert (Hm : (0 < m)%Q) by Lqa.lra.
  unfold pymod. assert (Hfloor : Qfloor (r / m) = 0%Z).
  { apply Qfloor_unique.
    - apply Qle_shift_div_l; [done|]. change (inject_Z 0) with 0%Q. Lqa.lra.
    - apply Qlt_shift_div_r; [done|]. change (inject_Z (0 + 1)) with 1%Q.
      Lqa.lra. }
  rewrite Hfloor. change (inject_Z 0) with 0%Q. ring.
Qed.

Lemma pymod_idempotent (a m : Q) :
  (0 < m)%Q → (pymod (pymod a m) m == pymod a m)%Q.
Proof.
  intros Hm. destruct (pymod_range a m Hm). by apply pymod_small.
Qed.
End angles_twice.

